(** * scripts/migrate_claims.py: back-filling custom claims

    A shallow embedding of the one-shot migration script and the
    properties its specification states about it.

    The script reads two Firestore collections ([stores], [users]),
    talks to Firebase Auth (read the custom claims of an account,
    replace them, revoke the refresh tokens) and writes one JSON log
    file.  Firestore is read-only here and appears as two lists of
    documents; Firebase Auth is a piece of state (the accounts) with a
    recorded sequence of calls and an outage schedule that says which
    calls raise; the log file is appended to the list of files written.
    The console narration ([print]) and the timestamps are left out:
    nothing the script decides depends on them. *)

From stdpp Require Import gmap strings list fin_maps.

(** ** Python values

    Firestore fields and custom claims are JSON-like values.  Only their
    truthiness and identity matter to the script.  Floats are left out. *)

#[local] Set Warnings "-register-all".

Inductive PyVal : Type :=
| VNone
| VBool (b : bool)
| VInt (z : Z)
| VStr (s : string)
| VList (l : list PyVal)
| VDict (d : gmap string PyVal).

(** [bool(v)] *)
Definition truthy (v : PyVal) : bool :=
  match v with
  | VNone => false
  | VBool b => b
  | VInt z => negb (z =? 0)%Z
  | VStr s => match s with EmptyString => false | String _ _ => true end
  | VList l => match l with [] => false | _ :: _ => true end
  | VDict d => negb (size d =? 0)
  end.

(** [d.get(k)]: the value under [k], [None] when the key is absent. *)
Definition py_get (d : gmap string PyVal) (k : string) : PyVal :=
  default VNone (d !! k).

(** [d.get(k, dflt)] *)
Definition py_get_default (d : gmap string PyVal) (k : string) (dflt : PyVal) : PyVal :=
  default dflt (d !! k).

(** A custom-claim set: a dict from claim names to values. *)
Abbreviation Claims := (gmap string PyVal).

(** The result of an expression or a call that may raise. *)
Inductive Exc (A : Type) : Type :=
| Returns (a : A)
| Raises.
Arguments Returns {A} a.
Arguments Raises {A}.

(** ** Documents of the Document Store *)

(** A document of the [stores] collection: [doc.id] and the two fields of
    [doc.to_dict()] the script reads.  [ownerId] is a uid string when
    present ([None]: key missing or null); [basicInfo] is whatever value
    the document holds under that key, a map in a well-formed store but
    possibly null or anything else ([None]: key missing). *)
Record StoreDoc : Type := {
  store_doc_id : string;
  ownerId : option string;
  basicInfo : option PyVal
}.

(** A document of the [users] collection: [user_doc.id] and the [email]
    field ([None]: key missing). *)
Record UserDoc : Type := {
  user_doc_id : string;
  email_field : option PyVal
}.

Record DocumentStore : Type := {
  stores : list StoreDoc;
  users : list UserDoc
}.

(** ** The ownership index *)

(** The value stored per owner: [{'storeId': ..., 'storeName': ...}]. *)
Record StoreInfo : Type := {
  storeId : string;
  storeName : PyVal
}.

(** [data.get('basicInfo', {}).get('name', 'Sin nombre')] (line 53).
    The first [get] answers [{}] only when the key is missing; the
    second [get] exists on a dict alone, so on a [basicInfo] that is
    present but null, or any other value that is not a dict, the
    expression raises [AttributeError]. *)
Definition store_name_of (doc : StoreDoc) : Exc PyVal :=
  match default (VDict ∅) (basicInfo doc) with
  | VDict info => Returns (py_get_default info "name" (VStr "Sin nombre"))
  | _ => Raises
  end.

(** The dict literal of lines 51-54. *)
Definition store_info_of (doc : StoreDoc) : Exc StoreInfo :=
  match store_name_of doc with
  | Returns name => Returns {| storeId := store_doc_id doc; storeName := name |}
  | Raises => Raises
  end.

(** [if owner_id:] on an optional string. *)
Definition nonempty_owner (o : option string) : option string :=
  match o with
  | Some (String a s) => Some (String a s)
  | Some EmptyString => None
  | None => None
  end.

(** One iteration of the loop of [get_all_stores] (lines 47-54): the
    entry is only built, and can only raise, for a document with a
    non-empty owner. *)
Definition index_store (idx : gmap string StoreInfo) (doc : StoreDoc)
  : Exc (gmap string StoreInfo) :=
  match nonempty_owner (ownerId doc) with
  | Some owner_id =>
      match store_info_of doc with
      | Returns info => Returns (<[owner_id := info]> idx)
      | Raises => Raises
      end
  | None => Returns idx
  end.

(** The loop of [get_all_stores]: an exception ends it, nothing
    catches it. *)
Fixpoint index_stores (idx : gmap string StoreInfo) (docs : list StoreDoc)
  : Exc (gmap string StoreInfo) :=
  match docs with
  | [] => Returns idx
  | doc :: rest =>
      match index_store idx doc with
      | Returns idx' => index_stores idx' rest
      | Raises => Raises
      end
  end.

(** [get_all_stores()] (lines 41-57), on the stream of store documents. *)
Definition get_all_stores (docs : list StoreDoc) : Exc (gmap string StoreInfo) :=
  index_stores ∅ docs.

(** ** Outcome records, counters and the report *)

(** An entry of [results]; [res_status] is the string the script writes. *)
Record Outcome : Type := {
  res_userId : string;
  res_email : PyVal;
  res_status : string;
  res_storeId : PyVal;
  res_role : PyVal
}.

(** The [stats] dict. *)
Record Stats : Type := {
  total : nat;
  migrated : nat;
  already_has_claims : nat;
  no_store : nat;
  errors : nat
}.

(** The object handed to [json.dump] (the timestamp is left out). *)
Record RunReport : Type := {
  report_stats : Stats;
  report_results : list Outcome
}.

(** ** Firebase Auth and the file system *)

(** The calls the script makes on [firebase_admin.auth]. *)
Inductive Call : Type :=
| GetUser (uid : string)
| SetCustomUserClaims (uid : string) (claims : Claims)
| RevokeRefreshTokens (uid : string).

(** Which calls raise for reasons outside the accounts (network, quota):
    each schedule is asked at the number of Auth calls made so far. *)
Record Faults : Type := {
  get_user_raises : nat → bool;
  set_claims_raises : nat → bool;
  revoke_raises : nat → bool
}.

(** The world the script runs in: the accounts of the Identity store with
    their [custom_claims] attribute ([None] when never set), the calls
    made so far, and the log files written. *)
Record World : Type := {
  accounts : gmap string (option Claims);
  trace : list Call;
  log_files : list RunReport
}.

(** Computations of the script: they read the outage schedule and
    thread the world. *)
Definition M (A : Type) : Type := Faults → World → A * World.

#[global] Instance M_ret : MRet M := λ A a _ w, (a, w).
#[global] Instance M_bind : MBind M := λ A B f m env w,
  let '(a, w') := m env w in f a env w'.

Definition record_call (c : Call) (w : World) : World :=
  {| accounts := accounts w; trace := trace w ++ [c]; log_files := log_files w |}.

(** Modelled from the spec: [auth.get_user(uid)] of the Firebase Admin
    SDK, "get current claim set for uid: mapping or empty; fails with a
    lookup error when the uid is unknown".  The result is the account's
    [custom_claims]. *)
Definition auth_get_user (uid : string) : M (Exc (option Claims)) := λ env w,
  let w' := record_call (GetUser uid) w in
  if get_user_raises env (length (trace w)) then (Raises, w')
  else match accounts w !! uid with
       | Some cc => (Returns cc, w')
       | None => (Raises, w')
       end.

(** Modelled from the spec: [auth.set_custom_user_claims(uid, claims)],
    "replace claim set for uid: success/failure".  A successful call
    replaces the whole claim set; a failed one changes nothing. *)
Definition auth_set_custom_user_claims (uid : string) (claims : Claims)
  : M (Exc unit) := λ env w,
  let w' := record_call (SetCustomUserClaims uid claims) w in
  if set_claims_raises env (length (trace w)) then (Raises, w')
  else match accounts w !! uid with
       | Some _ =>
           (Returns (),
            {| accounts := <[uid := Some claims]> (accounts w');
               trace := trace w'; log_files := log_files w' |})
       | None => (Raises, w')
       end.

(** Modelled from the spec: [auth.revoke_refresh_tokens(uid)],
    "invalidate all sessions for uid: success/failure".  It does not
    touch the claims. *)
Definition auth_revoke_refresh_tokens (uid : string) : M (Exc unit) := λ env w,
  let w' := record_call (RevokeRefreshTokens uid) w in
  if revoke_raises env (length (trace w)) then (Raises, w')
  else match accounts w !! uid with
       | Some _ => (Returns (), w')
       | None => (Raises, w')
       end.

(** [json.dump(...)] into a fresh log file (lines 200-206). *)
Definition write_log (r : RunReport) : M unit := λ _ w,
  ((), {| accounts := accounts w; trace := trace w;
          log_files := log_files w ++ [r] |}).

(** ** The script *)

(** [get_user_current_claims(uid)] (lines 60-67):
    [user.custom_claims or {}], and [{}] when the call raises. *)
Definition get_user_current_claims (uid : string) : M Claims :=
  r ← auth_get_user uid;
  match r with
  | Returns custom_claims => mret (default ∅ custom_claims)
  | Raises => mret ∅
  end.

(** [set_user_claims(uid, claims)] (lines 70-77). *)
Definition set_user_claims (uid : string) (claims : Claims) : M bool :=
  r ← auth_set_custom_user_claims uid claims;
  match r with
  | Returns _ => mret true
  | Raises => mret false
  end.

(** [revoke_user_tokens(uid)] (lines 80-87). *)
Definition revoke_user_tokens (uid : string) : M bool :=
  r ← auth_revoke_refresh_tokens uid;
  match r with
  | Returns _ => mret true
  | Raises => mret false
  end.

(** The accumulators of the loop: [stats] and [results]. *)
Record LoopState : Type := {
  stats : Stats;
  results : list Outcome
}.

Definition initial_stats : Stats :=
  {| total := 0; migrated := 0; already_has_claims := 0; no_store := 0; errors := 0 |}.

Definition initial_state : LoopState :=
  {| stats := initial_stats; results := [] |}.

Definition incr_total (s : Stats) : Stats :=
  {| total := total s + 1; migrated := migrated s;
     already_has_claims := already_has_claims s;
     no_store := no_store s; errors := errors s |}.

Definition incr_migrated (s : Stats) : Stats :=
  {| total := total s; migrated := migrated s + 1;
     already_has_claims := already_has_claims s;
     no_store := no_store s; errors := errors s |}.

Definition incr_already_has_claims (s : Stats) : Stats :=
  {| total := total s; migrated := migrated s;
     already_has_claims := already_has_claims s + 1;
     no_store := no_store s; errors := errors s |}.

Definition incr_no_store (s : Stats) : Stats :=
  {| total := total s; migrated := migrated s;
     already_has_claims := already_has_claims s;
     no_store := no_store s + 1; errors := errors s |}.

Definition incr_errors (s : Stats) : Stats :=
  {| total := total s; migrated := migrated s;
     already_has_claims := already_has_claims s;
     no_store := no_store s; errors := errors s + 1 |}.

(** [stats[...] += 1; results.append(o)] *)
Definition record_outcome (bump : Stats → Stats) (o : Outcome) (st : LoopState)
  : LoopState :=
  {| stats := bump (stats st); results := results st ++ [o] |}.

(** [user_data.get('email', 'N/A')] *)
Definition email_of (user_doc : UserDoc) : PyVal :=
  default (VStr "N/A") (email_field user_doc).

(** [{'storeId': store_info['storeId'], 'role': 'owner'}] *)
Definition new_claims_for (store_info : StoreInfo) : Claims :=
  {[ "storeId" := VStr (storeId store_info); "role" := VStr "owner" ]}.

(** The four records appended to [results] (lines 128-134, 143-149,
    170-176, 179-185). *)
Definition outcome_already (user_doc : UserDoc) (current_claims : Claims) : Outcome :=
  {| res_userId := user_doc_id user_doc; res_email := email_of user_doc;
     res_status := "already_has_claims";
     res_storeId := py_get current_claims "storeId";
     res_role := py_get current_claims "role" |}.

Definition outcome_no_store (user_doc : UserDoc) : Outcome :=
  {| res_userId := user_doc_id user_doc; res_email := email_of user_doc;
     res_status := "no_store"; res_storeId := VNone; res_role := VNone |}.

Definition outcome_migrated (user_doc : UserDoc) (store_info : StoreInfo) : Outcome :=
  {| res_userId := user_doc_id user_doc; res_email := email_of user_doc;
     res_status := "migrated";
     res_storeId := VStr (storeId store_info); res_role := VStr "owner" |}.

Definition outcome_error (user_doc : UserDoc) : Outcome :=
  {| res_userId := user_doc_id user_doc; res_email := email_of user_doc;
     res_status := "error"; res_storeId := VNone; res_role := VNone |}.

(** [stats['total'] += 1] *)
Definition counted (st : LoopState) : LoopState :=
  {| stats := incr_total (stats st); results := results st |}.

(** The body of the [for user_doc in users_ref.stream()] loop
    (lines 113-185): resolve the outcome of one user. *)
Definition process_user (stores_by_owner : gmap string StoreInfo)
    (user_doc : UserDoc) (st : LoopState) : M LoopState :=
  let user_id := user_doc_id user_doc in
  let st := counted st in
  current_claims ← get_user_current_claims user_id;
  if truthy (py_get current_claims "storeId") then
    mret (record_outcome incr_already_has_claims
            (outcome_already user_doc current_claims) st)
  else
    match stores_by_owner !! user_id with
    | None =>
        mret (record_outcome incr_no_store (outcome_no_store user_doc) st)
    | Some store_info =>
        let new_claims := new_claims_for store_info in
        ok ← set_user_claims user_id new_claims;
        if ok : bool then
          _ ← revoke_user_tokens user_id;
          mret (record_outcome incr_migrated
                  (outcome_migrated user_doc store_info) st)
        else
          mret (record_outcome incr_errors (outcome_error user_doc) st)
    end.

(** The [for] loop over the stream of user documents. *)
Fixpoint for_each_user (stores_by_owner : gmap string StoreInfo)
    (docs : list UserDoc) (st : LoopState) : M LoopState :=
  match docs with
  | [] => mret st
  | user_doc :: rest =>
      st' ← process_user stores_by_owner user_doc st;
      for_each_user stores_by_owner rest st'
  end.

(** [migrate_claims()] (lines 90-215).  An exception of
    [get_all_stores] (line 94) leaves the function before any user is
    read. *)
Definition migrate_claims (db : DocumentStore) : M (Exc Stats) :=
  match get_all_stores (stores db) with
  | Raises => mret Raises
  | Returns stores_by_owner =>
      st ← for_each_user stores_by_owner (users db) initial_state;
      _ ← write_log {| report_stats := stats st; report_results := results st |};
      mret (Returns (stats st))
  end.

(** ** The entry point *)

(** What the operator does at the prompt: types a line, or interrupts
    ([KeyboardInterrupt]), or closes the input ([EOFError]).  A line is
    a Python [str] of code points below 256, one [ascii] per code point. *)
Inductive Stdin : Type :=
| ReadLine (line : string)
| Interrupt
| EndOfFile.

(** [c.isspace()] for a code point below 256: tab to carriage return,
    the four separators 28-31, the space, NEL and the no-break space. *)
Definition py_isspace (c : Ascii.ascii) : bool :=
  let n := Ascii.N_of_ascii c in
  ((9 <=? n) && (n <=? 13) || (28 <=? n) && (n <=? 32)
   || (n =? 133) || (n =? 160))%N.

Fixpoint py_lstrip (s : string) : string :=
  match s with
  | EmptyString => EmptyString
  | String c s' => if py_isspace c then py_lstrip s' else s
  end.

Fixpoint py_rstrip (s : string) : string :=
  match s with
  | EmptyString => EmptyString
  | String c s' =>
      match py_rstrip s' with
      | EmptyString => if py_isspace c then EmptyString else String c EmptyString
      | r => String c r
      end
  end.

(** [s.strip()] *)
Definition py_strip (s : string) : string := py_rstrip (py_lstrip s).

(** [c.lower()] for a code point below 256: the letters A-Z and the
    accented capitals 192-222 (but not the multiplication sign 215) move
    up by 32. *)
Definition py_lower_char (c : Ascii.ascii) : Ascii.ascii :=
  let n := Ascii.N_of_ascii c in
  if ((65 <=? n) && (n <=? 90)
      || (192 <=? n) && (n <=? 222) && negb (n =? 215))%N
  then Ascii.ascii_of_N (n + 32)
  else c.

(** [s.lower()] *)
Fixpoint py_lower (s : string) : string :=
  match s with
  | EmptyString => EmptyString
  | String c s' => String (py_lower_char c) (py_lower s')
  end.

(** The [__main__] block (lines 219-233): ask, and migrate only on the
    answer ['s'].  An interrupt or a closed input at the prompt is caught
    and only printed, and so is an exception leaving [migrate_claims]
    (line 230). *)
Definition main (db : DocumentStore) (stdin : Stdin) : M unit :=
  match stdin with
  | ReadLine line =>
      let response := py_lower (py_strip line) in
      if decide (response = "s") then
        _ ← migrate_claims db;
        mret ()
      else mret ()
  | Interrupt => mret ()
  | EndOfFile => mret ()
  end.

(** ** Observations on a run *)

(** What [get_user_current_claims] returns. *)
Definition fetched_claims (uid : string) (env : Faults) (w : World) : Claims :=
  (get_user_current_claims uid env w).1.

Definition fetch_raises (uid : string) (env : Faults) (w : World) : bool :=
  match (auth_get_user uid env w).1 with
  | Raises => true
  | Returns _ => false
  end.

(** The world after the fetch of the loop body. *)
Definition after_fetch (uid : string) (w : World) : World :=
  record_call (GetUser uid) w.

(** Whether the write of the loop body succeeds for a user who reaches it. *)
Definition write_ok (uid : string) (store_info : StoreInfo) (env : Faults) (w : World)
  : bool :=
  (set_user_claims uid (new_claims_for store_info) env (after_fetch uid w)).1.

(** The status of the record appended last. *)
Definition last_status (st : LoopState) : option string :=
  res_status <$> last (results st).

(** How many records of a list carry a status. *)
Definition count_status (s : string) (l : list Outcome) : nat :=
  length (filter (λ o, res_status o = s) l).

(** The counter of [stats] that goes with a status string. *)
Definition counter_of (s : string) (c : Stats) : nat :=
  if decide (s = "migrated") then migrated c
  else if decide (s = "already_has_claims") then already_has_claims c
  else if decide (s = "no_store") then no_store c
  else if decide (s = "error") then errors c
  else 0.

(** Two outage schedules that differ at most in which revocations raise. *)
Definition same_fetch_and_write (env env' : Faults) : Prop :=
  (∀ n, get_user_raises env' n = get_user_raises env n)
  ∧ (∀ n, set_claims_raises env' n = set_claims_raises env n).

(** A store document without a usable owner: [ownerId] missing, null or
    the empty string. *)
Definition ownerless (doc : StoreDoc) : Prop :=
  ownerId doc = None ∨ ownerId doc = Some "".

(** Whether the Identity store holds a non-empty [storeId] claim for a uid. *)
Definition has_store_claim (w : World) (uid : string) : bool :=
  match accounts w !! uid with
  | Some (Some claims) => truthy (py_get claims "storeId")
  | _ => false
  end.

(** No fetch raises from the [k]-th Auth call on. *)
Definition fetches_succeed_from (env : Faults) (k : nat) : Prop :=
  ∀ n, k ≤ n → get_user_raises env n = false.

(** An outage schedule that does not depend on how many calls were made. *)
Definition steady (env : Faults) : Prop :=
  ∀ n m, get_user_raises env n = get_user_raises env m
         ∧ set_claims_raises env n = set_claims_raises env m.

(** The record the loop body gives for one user on a world. *)
Definition record_alone (idx : gmap string StoreInfo) (env : Faults) (w : World)
    (u : UserDoc) : list Outcome :=
  results (process_user idx u initial_state env w).1.

(** The four status strings. *)
Definition statuses : list string :=
  ["migrated"; "already_has_claims"; "no_store"; "error"].

(** The counters agree with the records collected so far. *)
Definition tallied (st : LoopState) : Prop :=
  total (stats st) = length (results st)
  ∧ migrated (stats st) = count_status "migrated" (results st)
  ∧ already_has_claims (stats st) = count_status "already_has_claims" (results st)
  ∧ no_store (stats st) = count_status "no_store" (results st)
  ∧ errors (stats st) = count_status "error" (results st).

(** The record and the counters one iteration leaves, by status. *)
Definition step_of (st st' : LoopState) (o : Outcome) (bump : Stats → Stats) : Prop :=
  results st' = results st ++ [o] ∧ stats st' = bump (incr_total (stats st)).

(** The owners under which [get_all_stores] files the documents of a
    stream, in stream order. *)
Definition owners_of (docs : list StoreDoc) : list string :=
  omap (λ d, nonempty_owner (ownerId d)) docs.

(** A store document on which line 53 is reached and raises: it has a
    non-empty owner and a [basicInfo] that is present and not a dict. *)
Definition breaks_index (doc : StoreDoc) : Prop :=
  (∃ o, ownerId doc = Some o ∧ o ≠ "")
  ∧ ∃ v, basicInfo doc = Some v ∧ ∀ info, v ≠ VDict info.

(** The index as a plain fold, for reasoning about streams on which
    [get_all_stores] returns: [entry_of] is the entry of a document whose
    name can be read, [index_of] what the loop then builds. *)
Definition entry_of (doc : StoreDoc) : StoreInfo :=
  {| storeId := store_doc_id doc;
     storeName := match store_name_of doc with
                  | Returns name => name
                  | Raises => VNone
                  end |}.

Definition add_entry (idx : gmap string StoreInfo) (doc : StoreDoc)
  : gmap string StoreInfo :=
  match nonempty_owner (ownerId doc) with
  | Some owner_id => <[owner_id := entry_of doc]> idx
  | None => idx
  end.

Definition index_of (docs : list StoreDoc) : gmap string StoreInfo :=
  foldl add_entry ∅ docs.

(** The Auth calls behind a record of the report: a fetch, then for a
    user who reached the write the write of the new claims, then for a
    migrated user the revocation. *)
Definition calls_for (idx : gmap string StoreInfo) (o : Outcome) : list Call :=
  let uid := res_userId o in
  match idx !! uid with
  | Some info =>
      if decide (res_status o = "migrated") then
        [GetUser uid; SetCustomUserClaims uid (new_claims_for info);
         RevokeRefreshTokens uid]
      else if decide (res_status o = "error") then
        [GetUser uid; SetCustomUserClaims uid (new_claims_for info)]
      else [GetUser uid]
  | None => [GetUser uid]
  end.

(** ** The example scenario of the specification *)

Module Scenario.

Definition s1 : StoreDoc :=
  {| store_doc_id := "S1"; ownerId := Some "u1";
     basicInfo := Some (VDict {[ "name" := VStr "Acme" ]}) |}.
Definition s2 : StoreDoc :=
  {| store_doc_id := "S2"; ownerId := None; basicInfo := None |}.
(** A second store of [u1], without a name. *)
Definition s3 : StoreDoc :=
  {| store_doc_id := "S3"; ownerId := Some "u1"; basicInfo := Some (VDict ∅) |}.
(** A store of [u2], without [basicInfo]. *)
Definition s5 : StoreDoc :=
  {| store_doc_id := "S5"; ownerId := Some "u2"; basicInfo := None |}.
(** A store of [u3] whose [basicInfo] is null. *)
Definition s4 : StoreDoc :=
  {| store_doc_id := "S4"; ownerId := Some "u3"; basicInfo := Some VNone |}.

Definition db : DocumentStore :=
  {| stores := [s1; s2];
     users :=
       [ {| user_doc_id := "u1"; email_field := Some (VStr "a@x.com") |};
         {| user_doc_id := "u2"; email_field := Some (VStr "b@x.com") |};
         {| user_doc_id := "u3"; email_field := Some (VStr "c@x.com") |} ] |}.

Definition s9_claims : Claims :=
  {[ "storeId" := VStr "S9"; "role" := VStr "owner" ]}.

Definition world : World :=
  {| accounts := {[ "u1" := None; "u2" := Some s9_claims; "u3" := None ]};
     trace := []; log_files := [] |}.

Definition no_faults : Faults :=
  {| get_user_raises := λ _, false;
     set_claims_raises := λ _, false;
     revoke_raises := λ _, false |}.

Definition u1 : UserDoc :=
  {| user_doc_id := "u1"; email_field := Some (VStr "a@x.com") |}.
Definition u2 : UserDoc :=
  {| user_doc_id := "u2"; email_field := Some (VStr "b@x.com") |}.
Definition u3 : UserDoc :=
  {| user_doc_id := "u3"; email_field := Some (VStr "c@x.com") |}.

Definition s1_info : StoreInfo :=
  {| storeId := "S1"; storeName := VStr "Acme" |}.

(** The index of the scenario. *)
Definition idx : gmap string StoreInfo := {[ "u1" := s1_info ]}.

(** The same users when no store has an owner. *)
Definition db_ownerless : DocumentStore :=
  {| stores := [s2]; users := users db |}.

(** The scenario with the store of the null [basicInfo] added. *)
Definition db_null_info : DocumentStore :=
  {| stores := [s1; s2; s4]; users := users db |}.

(** Outages: the [k]-th Auth call, if it is a fetch, raises; every
    write raises; every revocation raises. *)
Definition fetch_outage_at (k : nat) : Faults :=
  {| get_user_raises := λ n, bool_decide (n = k);
     set_claims_raises := λ _, false;
     revoke_raises := λ _, false |}.

Definition write_outage : Faults :=
  {| get_user_raises := λ _, false;
     set_claims_raises := λ _, true;
     revoke_raises := λ _, false |}.

Definition revoke_outage : Faults :=
  {| get_user_raises := λ _, false;
     set_claims_raises := λ _, false;
     revoke_raises := λ _, true |}.

End Scenario.

(** * Properties *)

(** ** Running the computations *)

Lemma run_bind {A B} (m : M A) (f : A → M B) env w :
  (m ≫= f) env w = let '(a, w') := m env w in f a env w'.
Proof. reflexivity. Qed.

Lemma run_ret {A} (a : A) env w : (mret a : M A) env w = (a, w).
Proof. reflexivity. Qed.

Lemma get_user_current_claims_world uid env w :
  (get_user_current_claims uid env w).2 = record_call (GetUser uid) w.
Proof.
  unfold get_user_current_claims. rewrite run_bind. unfold auth_get_user.
  destruct (get_user_raises env _); [done|].
  by destruct (accounts w !! uid).
Qed.

Lemma get_user_current_claims_eq uid env w :
  get_user_current_claims uid env w
  = (fetched_claims uid env w, record_call (GetUser uid) w).
Proof.
  rewrite <- (get_user_current_claims_world uid env w). unfold fetched_claims.
  by destruct (get_user_current_claims uid env w).
Qed.

Lemma fetched_claims_raises uid env w :
  fetch_raises uid env w = true → fetched_claims uid env w = ∅.
Proof.
  unfold fetch_raises, fetched_claims, get_user_current_claims.
  rewrite run_bind. unfold auth_get_user.
  destruct (get_user_raises env _); [done|].
  by destruct (accounts w !! uid).
Qed.

Lemma fetched_claims_returns uid env w :
  fetch_raises uid env w = false →
  ∃ cc, accounts w !! uid = Some cc ∧ fetched_claims uid env w = default ∅ cc.
Proof.
  unfold fetch_raises, fetched_claims, get_user_current_claims.
  rewrite run_bind. unfold auth_get_user.
  destruct (get_user_raises env _); [done|].
  destruct (accounts w !! uid) as [cc|]; [|done]. by exists cc.
Qed.

(** The two ways [set_user_claims] can end. *)
Lemma set_user_claims_cases uid claims env w :
  (set_user_claims uid claims env w
   = (true, {| accounts := <[uid := Some claims]> (accounts w);
               trace := trace w ++ [SetCustomUserClaims uid claims];
               log_files := log_files w |})
   ∧ is_Some (accounts w !! uid)
   ∧ set_claims_raises env (length (trace w)) = false)
  ∨ (set_user_claims uid claims env w
     = (false, record_call (SetCustomUserClaims uid claims) w)
     ∧ (accounts w !! uid = None
        ∨ set_claims_raises env (length (trace w)) = true)).
Proof.
  unfold set_user_claims. rewrite run_bind. unfold auth_set_custom_user_claims.
  destruct (set_claims_raises env _); [right; by eauto|].
  destruct (accounts w !! uid); [left; by eauto | right; by eauto].
Qed.

Lemma revoke_user_tokens_world uid env w :
  (revoke_user_tokens uid env w).2 = record_call (RevokeRefreshTokens uid) w.
Proof.
  unfold revoke_user_tokens. rewrite run_bind. unfold auth_revoke_refresh_tokens.
  destruct (revoke_raises env _); [done|].
  by destruct (accounts w !! uid).
Qed.

(** The loop body, with the collaborator calls run. *)
Lemma process_user_eq idx user st env w :
  process_user idx user st env w =
  let uid := user_doc_id user in
  let current_claims := fetched_claims uid env w in
  let w1 := record_call (GetUser uid) w in
  if truthy (py_get current_claims "storeId") then
    (record_outcome incr_already_has_claims
       (outcome_already user current_claims) (counted st), w1)
  else
    match idx !! uid with
    | None =>
        (record_outcome incr_no_store (outcome_no_store user) (counted st), w1)
    | Some info =>
        let r := set_user_claims uid (new_claims_for info) env w1 in
        if r.1 then
          (record_outcome incr_migrated (outcome_migrated user info) (counted st),
           record_call (RevokeRefreshTokens uid) r.2)
        else
          (record_outcome incr_errors (outcome_error user) (counted st), r.2)
    end.
Proof.
  unfold process_user. rewrite run_bind, get_user_current_claims_eq. cbv zeta.
  destruct (truthy _); [done|].
  destruct (idx !! user_doc_id user) as [info|]; [|done].
  rewrite run_bind.
  destruct (set_user_claims _ _ env _) as [[] w2]; simpl; [|done].
  rewrite run_bind, <- (revoke_user_tokens_world _ env w2).
  by destruct (revoke_user_tokens _ env w2).
Qed.

(** ** The example scenario, run *)

Example scenario_index :
  get_all_stores (stores Scenario.db) = Returns Scenario.idx.
Proof. reflexivity. Qed.

Example scenario_stats :
  (migrate_claims Scenario.db Scenario.no_faults Scenario.world).1
  = Returns {| total := 3; migrated := 1; already_has_claims := 1;
               no_store := 1; errors := 0 |}.
Proof. vm_compute. reflexivity. Qed.

(** A store with an owner and a null [basicInfo]: the index cannot be
    built and the run ends before anything is called or written. *)
Example scenario_null_info :
  migrate_claims Scenario.db_null_info Scenario.no_faults Scenario.world
  = (Raises, Scenario.world).
Proof. reflexivity. Qed.

Example scenario_report :
  report_results
  <$> log_files (migrate_claims Scenario.db Scenario.no_faults Scenario.world).2
  = [[ {| res_userId := "u1"; res_email := VStr "a@x.com"; res_status := "migrated";
          res_storeId := VStr "S1"; res_role := VStr "owner" |};
       {| res_userId := "u2"; res_email := VStr "b@x.com";
          res_status := "already_has_claims";
          res_storeId := VStr "S9"; res_role := VStr "owner" |};
       {| res_userId := "u3"; res_email := VStr "c@x.com"; res_status := "no_store";
          res_storeId := VNone; res_role := VNone |} ]].
Proof. vm_compute. reflexivity. Qed.

Example scenario_calls :
  trace (migrate_claims Scenario.db Scenario.no_faults Scenario.world).2
  = [ GetUser "u1";
      SetCustomUserClaims "u1" {[ "storeId" := VStr "S1"; "role" := VStr "owner" ]};
      RevokeRefreshTokens "u1"; GetUser "u2"; GetUser "u3" ].
Proof. vm_compute. reflexivity. Qed.

(** An account missing from the Identity store: the fetch and the write
    both raise, and the user is an [error]. *)
Example unknown_account_is_error :
  last_status
    (process_user Scenario.idx Scenario.u1 initial_state Scenario.no_faults
       {| accounts := ∅; trace := []; log_files := [] |}).1
  = Some "error".
Proof. vm_compute. reflexivity. Qed.

(** ** One iteration appends one record and bumps one counter *)

Lemma count_status_snoc s l o :
  count_status s (l ++ [o])
  = count_status s l + (if decide (res_status o = s) then 1 else 0).
Proof.
  unfold count_status. rewrite filter_app, length_app. f_equal.
  rewrite filter_cons, filter_nil. by case_decide.
Qed.

Lemma process_user_step idx user st env w :
  let st' := (process_user idx user st env w).1 in
  ∃ o, res_userId o = user_doc_id user
    ∧ ((res_status o = "migrated" ∧ step_of st st' o incr_migrated)
       ∨ (res_status o = "already_has_claims" ∧ step_of st st' o incr_already_has_claims)
       ∨ (res_status o = "no_store" ∧ step_of st st' o incr_no_store)
       ∨ (res_status o = "error" ∧ step_of st st' o incr_errors)).
Proof.
  rewrite process_user_eq. cbv zeta.
  destruct (truthy _).
  { eexists (outcome_already _ _); split; [done|]. right; left. by split. }
  destruct (idx !! user_doc_id user) as [info|].
  2:{ exists (outcome_no_store user); split; [done|]. right; right; left. by split. }
  destruct (set_user_claims _ _ _ _).1.
  - exists (outcome_migrated user info); split; [done|]. left. by split.
  - exists (outcome_error user); split; [done|]. right; right; right. by split.
Qed.

Lemma process_user_tallied idx user st env w :
  tallied st → tallied (process_user idx user st env w).1.
Proof.
  intros (Ht & Hm & Ha & Hn & He).
  destruct (process_user_step idx user st env w) as (o & _ & Hcase).
  unfold tallied.
  destruct Hcase as [(Hs & Hr & Hst)|[(Hs & Hr & Hst)|[(Hs & Hr & Hst)|(Hs & Hr & Hst)]]];
    rewrite Hr, Hst, length_app, !count_status_snoc, Hs; simpl;
    repeat case_decide; try congruence; lia.
Qed.

Lemma process_user_ids idx user st env w :
  res_userId <$> results (process_user idx user st env w).1
  = (res_userId <$> results st) ++ [user_doc_id user].
Proof.
  destruct (process_user_step idx user st env w) as (o & Hid & Hcase).
  destruct Hcase as [(_ & Hr & _)|[(_ & Hr & _)|[(_ & Hr & _)|(_ & Hr & _)]]];
    by rewrite Hr, fmap_app, <- Hid.
Qed.

(** ** The loop *)

Lemma for_each_user_cons idx user rest st env w :
  for_each_user idx (user :: rest) st env w
  = for_each_user idx rest (process_user idx user st env w).1 env
      (process_user idx user st env w).2.
Proof. simpl. rewrite run_bind. by destruct (process_user idx user st env w). Qed.

Lemma for_each_user_app idx l1 l2 st env w :
  for_each_user idx (l1 ++ l2) st env w
  = for_each_user idx l2 (for_each_user idx l1 st env w).1 env
      (for_each_user idx l1 st env w).2.
Proof.
  revert st w. induction l1 as [|u l1 IH]; intros st w; [done|].
  rewrite <- app_comm_cons, !for_each_user_cons. apply IH.
Qed.

Lemma for_each_user_tallied idx l st env w :
  tallied st → tallied (for_each_user idx l st env w).1.
Proof.
  revert st w. induction l as [|u l IH]; intros st w Hst; [done|].
  rewrite for_each_user_cons. by apply IH, process_user_tallied.
Qed.

Lemma for_each_user_ids idx l st env w :
  res_userId <$> results (for_each_user idx l st env w).1
  = (res_userId <$> results st) ++ (user_doc_id <$> l).
Proof.
  revert st w. induction l as [|u l IH]; intros st w.
  - simpl. by rewrite app_nil_r.
  - rewrite for_each_user_cons, IH, process_user_ids, <- app_assoc. done.
Qed.

Lemma initial_state_tallied : tallied initial_state.
Proof. by repeat split. Qed.

Lemma count_status_total l :
  Forall (λ o, res_status o ∈ statuses) l →
  count_status "migrated" l + count_status "already_has_claims" l
  + count_status "no_store" l + count_status "error" l = length l.
Proof.
  induction 1 as [|o l Ho _ IH]; [done|].
  unfold count_status in *. rewrite !filter_cons. simpl length.
  unfold statuses in Ho. rewrite !elem_of_cons, elem_of_nil in Ho.
  destruct Ho as [->|[->|[->|[->|[]]]]];
    repeat case_decide; try congruence; simpl; lia.
Qed.

(** [migrate_claims] in terms of the loop, once the index is built. *)
Lemma migrate_claims_eq db idx env w :
  get_all_stores (stores db) = Returns idx →
  migrate_claims db env w =
  let r := for_each_user idx (users db) initial_state env w in
  (Returns (stats r.1),
   {| accounts := accounts r.2; trace := trace r.2;
      log_files := log_files r.2
                   ++ [{| report_stats := stats r.1; report_results := results r.1 |}] |}).
Proof.
  intros Hidx. unfold migrate_claims. rewrite Hidx. cbv zeta. rewrite run_bind.
  by destruct (for_each_user _ _ _ _ _).
Qed.

(** [migrate_claims] when the index cannot be built. *)
Lemma migrate_claims_raises db env w :
  get_all_stores (stores db) = Raises →
  migrate_claims db env w = (Raises, w).
Proof. intros Hidx. unfold migrate_claims. by rewrite Hidx. Qed.

Lemma for_each_user_invariant (P : LoopState → Prop) idx :
  (∀ u st env w, P st → P (process_user idx u st env w).1) →
  ∀ l st env w, P st → P (for_each_user idx l st env w).1.
Proof.
  intros Hstep l. induction l as [|u l IH]; intros st env w Hst; [done|].
  rewrite for_each_user_cons. by apply IH, Hstep.
Qed.

Lemma process_user_log_files idx user st env w :
  log_files (process_user idx user st env w).2 = log_files w.
Proof.
  rewrite process_user_eq. cbv zeta.
  destruct (truthy _); [done|].
  destruct (idx !! user_doc_id user) as [info|]; [|done].
  destruct (set_user_claims_cases (user_doc_id user) (new_claims_for info) env
              (record_call (GetUser (user_doc_id user)) w))
    as [(-> & _)|(-> & _)]; done.
Qed.

Lemma for_each_user_log_files idx l st env w :
  log_files (for_each_user idx l st env w).2 = log_files w.
Proof.
  revert st w. induction l as [|u l IH]; intros st w; [done|].
  by rewrite for_each_user_cons, IH, process_user_log_files.
Qed.

Lemma tallied_counter_of st s :
  tallied st → s ∈ statuses → counter_of s (stats st) = count_status s (results st).
Proof.
  intros (_ & Hm & Ha & Hn & He) Hs.
  unfold statuses in Hs. rewrite !elem_of_cons, elem_of_nil in Hs.
  by destruct Hs as [->|[->|[->|[->|[]]]]].
Qed.

Lemma step_of_counter st st' o bump s :
  step_of st st' o bump →
  (res_status o = "migrated" ∧ bump = incr_migrated)
  ∨ (res_status o = "already_has_claims" ∧ bump = incr_already_has_claims)
  ∨ (res_status o = "no_store" ∧ bump = incr_no_store)
  ∨ (res_status o = "error" ∧ bump = incr_errors) →
  s ∈ statuses →
  counter_of s (stats st')
  = counter_of s (stats st) + (if decide (res_status o = s) then 1 else 0).
Proof.
  intros [_ ->] Hcase Hs.
  unfold statuses in Hs. rewrite !elem_of_cons, elem_of_nil in Hs.
  destruct Hcase as [[-> ->]|[[-> ->]|[[-> ->]|[-> ->]]]];
    destruct Hs as [->|[->|[->|[->|[]]]]];
    unfold counter_of; repeat (case_decide; try congruence); simpl; lia.
Qed.

(** ** C2: one status and one record per user *)

(** C2 (exhaustiveness and exclusivity).  One iteration of the loop
    appends exactly one record to [results]; the status of that record is
    exactly one of the four status strings; [total] and the counter of
    that status grow by one and the other three counters stay.  At the
    end of a run, which is reached whenever the ownership index could be
    built, [total] is the number of user documents and the four counters
    add up to it. *)
Theorem C2_exhaustive_exclusive :
  (∀ idx user st env w,
     let st' := (process_user idx user st env w).1 in
     ∃ o, results st' = results st ++ [o]
       ∧ length (filter (λ s, res_status o = s) statuses) = 1
       ∧ total (stats st') = total (stats st) + 1
       ∧ ∀ s, s ∈ statuses →
           counter_of s (stats st')
           = counter_of s (stats st) + (if decide (res_status o = s) then 1 else 0))
  ∧ (∀ db idx env w,
       get_all_stores (stores db) = Returns idx →
       ∃ s, (migrate_claims db env w).1 = Returns s
            ∧ total s = length (users db)
            ∧ migrated s + already_has_claims s + no_store s + errors s
              = total s).
Proof.
  split.
  - intros idx user st env w st'.
    destruct (process_user_step idx user st env w) as (o & _ & Hcase).
    fold st' in Hcase. exists o.
    destruct Hcase as [[Hs Hstep]|[[Hs Hstep]|[[Hs Hstep]|[Hs Hstep]]]];
      (split; [apply Hstep|]);
      (split; [by rewrite Hs|]);
      (split; [destruct Hstep as [_ ->]; simpl; lia|]);
      intros s Hin; eapply step_of_counter; eauto 10.
  - intros db idx env w Hidx. rewrite (migrate_claims_eq db idx) by done.
    cbv zeta. eexists. split; [reflexivity|]. simpl.
    set (r := for_each_user _ _ _ _ _).
    assert (tallied r.1) as Ht
      by apply for_each_user_tallied, initial_state_tallied.
    assert (length (results r.1) = length (users db)) as Hlen.
    { rewrite <- (length_fmap res_userId (results r.1)). unfold r.
      rewrite for_each_user_ids. simpl. by rewrite length_fmap. }
    assert (migrated (stats r.1) + already_has_claims (stats r.1)
            + no_store (stats r.1) + errors (stats r.1) = total (stats r.1)
            ∧ True) as [Hsum _]; [|destruct Ht as (Ht & _); split; lia].
    split; [|done]. unfold r.
    apply (for_each_user_invariant
             (λ st, migrated (stats st) + already_has_claims (stats st)
                    + no_store (stats st) + errors (stats st) = total (stats st)));
      [|done].
    intros u st env' w' Hst.
    destruct (process_user_step idx u st env' w') as (o & _ & Hcase).
    destruct Hcase as [(_ & _ & ->)|[(_ & _ & ->)|[(_ & _ & ->)|(_ & _ & ->)]]];
      simpl; lia.
Qed.

Lemma C2_exhaustive_exclusive_witness :
  get_all_stores (stores Scenario.db) = Returns Scenario.idx
  ∧ ∃ s, (migrate_claims Scenario.db Scenario.write_outage Scenario.world).1
         = Returns s
         ∧ total s = 3
         ∧ migrated s + already_has_claims s + no_store s + errors s = total s.
Proof.
  assert (get_all_stores (stores Scenario.db) = Returns Scenario.idx) as H
    by reflexivity.
  split; [exact H|].
  exact (proj2 C2_exhaustive_exclusive Scenario.db Scenario.idx
           Scenario.write_outage Scenario.world H).
Defined.

(** ** C8: the report *)

(** C8 (report completeness).  A run for which the ownership index
    could be built returns, having written exactly one report; the
    report holds the returned counters; its list of records has [total]
    entries, one per user document and in the order of the stream; and
    each of the four counters is the number of records carrying its
    status. *)
Theorem C8_report_complete db idx env w :
  get_all_stores (stores db) = Returns idx →
  let r := migrate_claims db env w in
  ∃ report,
    log_files r.2 = log_files w ++ [report]
    ∧ r.1 = Returns (report_stats report)
    ∧ length (report_results report) = total (report_stats report)
    ∧ res_userId <$> report_results report = user_doc_id <$> users db
    ∧ ∀ s, s ∈ statuses →
        counter_of s (report_stats report) = count_status s (report_results report).
Proof.
  intros Hidx r. unfold r. rewrite (migrate_claims_eq db idx) by done.
  cbv zeta. simpl.
  set (l := for_each_user _ _ _ _ _).
  assert (tallied l.1) as Ht by apply for_each_user_tallied, initial_state_tallied.
  eexists. split; [unfold l; by rewrite for_each_user_log_files|].
  simpl. split; [done|]. split; [symmetry; apply Ht|].
  split; [unfold l; by rewrite for_each_user_ids|].
  intros s Hs. by apply tallied_counter_of.
Qed.

Lemma C8_report_complete_witness :
  get_all_stores (stores Scenario.db) = Returns Scenario.idx
  ∧ ∃ report,
      log_files (migrate_claims Scenario.db Scenario.no_faults Scenario.world).2
      = log_files Scenario.world ++ [report]
      ∧ length (report_results report) = total (report_stats report).
Proof.
  assert (get_all_stores (stores Scenario.db) = Returns Scenario.idx) as H
    by reflexivity.
  split; [exact H|].
  destruct (C8_report_complete Scenario.db Scenario.idx Scenario.no_faults
              Scenario.world H) as (report & Hlog & _ & Hlen & _).
  exists report. by split.
Defined.

(** ** The branches of the loop body *)

Lemma last_status_record bump o st :
  last_status (record_outcome bump o st) = Some (res_status o).
Proof. unfold last_status. simpl. by rewrite last_snoc. Qed.

Lemma for_each_user_length idx l st env w :
  length (results (for_each_user idx l st env w).1)
  = length (results st) + length l.
Proof.
  rewrite <- (length_fmap res_userId (results _)), for_each_user_ids.
  by rewrite length_app, !length_fmap.
Qed.

Lemma process_user_already idx user st env w :
  truthy (py_get (fetched_claims (user_doc_id user) env w) "storeId") = true →
  process_user idx user st env w
  = (record_outcome incr_already_has_claims
       (outcome_already user (fetched_claims (user_doc_id user) env w)) (counted st),
     record_call (GetUser (user_doc_id user)) w).
Proof. intros H. rewrite process_user_eq. cbv zeta. by rewrite H. Qed.

Lemma process_user_no_store idx user st env w :
  truthy (py_get (fetched_claims (user_doc_id user) env w) "storeId") = false →
  idx !! user_doc_id user = None →
  process_user idx user st env w
  = (record_outcome incr_no_store (outcome_no_store user) (counted st),
     record_call (GetUser (user_doc_id user)) w).
Proof. intros H Hidx. rewrite process_user_eq. cbv zeta. by rewrite H, Hidx. Qed.

Lemma process_user_write_ok idx user st env w info :
  truthy (py_get (fetched_claims (user_doc_id user) env w) "storeId") = false →
  idx !! user_doc_id user = Some info →
  write_ok (user_doc_id user) info env w = true →
  process_user idx user st env w
  = (record_outcome incr_migrated (outcome_migrated user info) (counted st),
     {| accounts := <[user_doc_id user := Some (new_claims_for info)]> (accounts w);
        trace := trace w ++ [GetUser (user_doc_id user);
                             SetCustomUserClaims (user_doc_id user) (new_claims_for info);
                             RevokeRefreshTokens (user_doc_id user)];
        log_files := log_files w |}).
Proof.
  intros H Hidx Hok. rewrite process_user_eq. cbv zeta. rewrite H, Hidx.
  unfold write_ok, after_fetch in Hok. rewrite Hok.
  destruct (set_user_claims_cases (user_doc_id user) (new_claims_for info) env
              (record_call (GetUser (user_doc_id user)) w))
    as [(Heq & _)|(Heq & _)]; rewrite Heq in Hok |- *; [|done].
  unfold record_call. simpl. by rewrite <- !app_assoc.
Qed.

Lemma process_user_write_fails idx user st env w info :
  truthy (py_get (fetched_claims (user_doc_id user) env w) "storeId") = false →
  idx !! user_doc_id user = Some info →
  write_ok (user_doc_id user) info env w = false →
  process_user idx user st env w
  = (record_outcome incr_errors (outcome_error user) (counted st),
     {| accounts := accounts w;
        trace := trace w ++ [GetUser (user_doc_id user);
                             SetCustomUserClaims (user_doc_id user) (new_claims_for info)];
        log_files := log_files w |}).
Proof.
  intros H Hidx Hok. rewrite process_user_eq. cbv zeta. rewrite H, Hidx.
  unfold write_ok, after_fetch in Hok. rewrite Hok.
  destruct (set_user_claims_cases (user_doc_id user) (new_claims_for info) env
              (record_call (GetUser (user_doc_id user)) w))
    as [(Heq & _)|(Heq & _)]; rewrite Heq in Hok |- *; [done|].
  unfold record_call. simpl. by rewrite <- !app_assoc.
Qed.

(** ** C4: a user who already has a store claim *)

(** C4 (short-circuit).  When the fetched claim set of a user has a
    non-empty (truthy) [storeId], the record appended for the user has
    status [already_has_claims] and echoes the fetched [storeId] and
    [role]; the only call made on the Identity store is the fetch, so
    there is no claim write and no revocation, and the accounts are
    left as they were. *)
Theorem C4_short_circuit idx user st env w :
  let uid := user_doc_id user in
  let current_claims := fetched_claims uid env w in
  truthy (py_get current_claims "storeId") = true →
  let r := process_user idx user st env w in
  (∃ o, results r.1 = results st ++ [o]
        ∧ res_userId o = uid
        ∧ res_status o = "already_has_claims"
        ∧ res_storeId o = py_get current_claims "storeId"
        ∧ res_role o = py_get current_claims "role")
  ∧ stats r.1 = incr_already_has_claims (incr_total (stats st))
  ∧ trace r.2 = trace w ++ [GetUser uid]
  ∧ accounts r.2 = accounts w.
Proof.
  intros uid cc H r. unfold r. rewrite process_user_already by done.
  split; [|done]. by eexists (outcome_already user cc).
Qed.

Lemma C4_short_circuit_witness :
  truthy (py_get (fetched_claims "u2" Scenario.no_faults Scenario.world) "storeId") = true
  ∧ trace (process_user Scenario.idx Scenario.u2 initial_state
             Scenario.no_faults Scenario.world).2
    = [GetUser "u2"].
Proof.
  assert (truthy (py_get (fetched_claims "u2" Scenario.no_faults Scenario.world)
                    "storeId") = true) as H by (vm_compute; reflexivity).
  split; [exact H|].
  exact (proj1 (proj2 (proj2
    (C4_short_circuit Scenario.idx Scenario.u2 initial_state
       Scenario.no_faults Scenario.world H)))).
Defined.

(** ** C3: a user who owns no store *)

(** C3 as the specification words it, "no store gives [no_store]
    whatever the claims store holds", fails: the second user of the
    example scenario owns no store and holds a store claim, and the
    script reports [already_has_claims]. *)
Lemma C3_counterexample :
  (Scenario.idx !! "u2" = None
   ∧ has_store_claim Scenario.world "u2" = true
   ∧ last_status (process_user Scenario.idx Scenario.u2 initial_state
                    Scenario.no_faults Scenario.world).1
     = Some "already_has_claims")
  ∧ ¬ (∀ idx user st env w,
         idx !! user_doc_id user = None →
         last_status (process_user idx user st env w).1 = Some "no_store").
Proof.
  split; [vm_compute; by repeat split|].
  intros H.
  specialize (H Scenario.idx Scenario.u2 initial_state
                Scenario.no_faults Scenario.world).
  vm_compute in H. specialize (H eq_refl). discriminate H.
Qed.

(** C3 (no-store correctness, amended).  For a user whose id is not a
    key of the ownership index the script makes no call but the fetch
    and leaves the accounts alone; the status is [no_store] when the
    fetched claim set has no non-empty [storeId], in particular whenever
    the fetch raises, and [already_has_claims] when it has one. *)
Theorem C3_no_store_amended idx user st env w :
  let uid := user_doc_id user in
  let current_claims := fetched_claims uid env w in
  idx !! uid = None →
  let r := process_user idx user st env w in
  (truthy (py_get current_claims "storeId") = false →
     r.1 = record_outcome incr_no_store (outcome_no_store user) (counted st)
     ∧ last_status r.1 = Some "no_store")
  ∧ (fetch_raises uid env w = true → last_status r.1 = Some "no_store")
  ∧ (truthy (py_get current_claims "storeId") = true →
       last_status r.1 = Some "already_has_claims")
  ∧ trace r.2 = trace w ++ [GetUser uid]
  ∧ accounts r.2 = accounts w.
Proof.
  intros uid cc Hidx r. unfold r.
  destruct (truthy (py_get cc "storeId")) eqn:Hcc.
  - rewrite process_user_already by done. simpl.
    rewrite last_status_record.
    split; [done|]. split; [|done].
    intros Hr. apply fetched_claims_raises in Hr. fold uid cc in Hr.
    rewrite Hr in Hcc. discriminate Hcc.
  - rewrite process_user_no_store by done. simpl.
    rewrite last_status_record. done.
Qed.

Lemma C3_no_store_amended_witness :
  Scenario.idx !! "u3" = None
  ∧ last_status (process_user Scenario.idx Scenario.u3 initial_state
                   Scenario.no_faults Scenario.world).1
    = Some "no_store".
Proof.
  assert (Scenario.idx !! "u3" = None) as H by (vm_compute; reflexivity).
  split; [exact H|].
  apply (proj1 (C3_no_store_amended Scenario.idx Scenario.u3 initial_state
                  Scenario.no_faults Scenario.world H)).
  vm_compute; reflexivity.
Defined.

(** ** C7: the fetch raises *)

(** C7 (fetch-failure degradation).  When [auth.get_user] raises for a
    user, the current claim set is the empty dict and the loop body goes
    on to the ownership index: without a store the record is [no_store]
    after the fetch alone; with a store the write is attempted with the
    new claims and the record is [migrated] or [error] as the write
    returned.  So [error] is only ever the result of a failed write, and
    the loop goes on with the remaining users, one record each. *)
Theorem C7_fetch_failure idx user rest st env w :
  let uid := user_doc_id user in
  fetch_raises uid env w = true →
  let r := process_user idx user st env w in
  fetched_claims uid env w = ∅
  ∧ match idx !! uid with
    | None =>
        r.1 = record_outcome incr_no_store (outcome_no_store user) (counted st)
        ∧ trace r.2 = trace w ++ [GetUser uid]
    | Some info =>
        (∃ calls, trace r.2
                  = trace w ++ [GetUser uid;
                                SetCustomUserClaims uid (new_claims_for info)] ++ calls)
        ∧ last_status r.1
          = Some (if write_ok uid info env w then "migrated" else "error")
    end
  ∧ (last_status r.1 = Some "error" →
       ∃ info, idx !! uid = Some info ∧ write_ok uid info env w = false)
  ∧ for_each_user idx (user :: rest) st env w = for_each_user idx rest r.1 env r.2
  ∧ length (results (for_each_user idx (user :: rest) st env w).1)
    = length (results st) + 1 + length rest.
Proof.
  intros uid Hr r.
  pose proof (fetched_claims_raises uid env w Hr) as Hcc.
  assert (truthy (py_get (fetched_claims uid env w) "storeId") = false) as Hf
    by (by rewrite Hcc).
  split; [done|].
  split; [|split; [|split]].
  - destruct (idx !! uid) as [info|] eqn:Hidx.
    + destruct (write_ok uid info env w) eqn:Hok; unfold r.
      * rewrite (process_user_write_ok _ _ _ _ _ info) by done.
        cbn [fst snd]. rewrite last_status_record. simpl. split; [|done].
        by exists [RevokeRefreshTokens uid].
      * rewrite (process_user_write_fails _ _ _ _ _ info) by done.
        cbn [fst snd]. rewrite last_status_record. simpl. split; [|done].
        by exists [].
    + unfold r. by rewrite process_user_no_store.
  - intros Hlast. destruct (idx !! uid) as [info|] eqn:Hidx.
    + exists info. split; [done|].
      destruct (write_ok uid info env w) eqn:Hok; [|done].
      unfold r in Hlast.
      rewrite (process_user_write_ok _ _ _ _ _ info) in Hlast by done.
      cbn [fst snd] in Hlast. by rewrite last_status_record in Hlast.
    + unfold r in Hlast. rewrite process_user_no_store in Hlast by done.
      cbn [fst snd] in Hlast. by rewrite last_status_record in Hlast.
  - apply for_each_user_cons.
  - rewrite for_each_user_length. simpl. lia.
Qed.

Lemma C7_fetch_failure_witness :
  fetch_raises "u1" (Scenario.fetch_outage_at 0) Scenario.world = true
  ∧ last_status (process_user Scenario.idx Scenario.u1 initial_state
                   (Scenario.fetch_outage_at 0) Scenario.world).1
    = Some "migrated".
Proof.
  assert (fetch_raises "u1" (Scenario.fetch_outage_at 0) Scenario.world = true)
    as H by (vm_compute; reflexivity).
  split; [exact H|].
  pose proof (proj1 (proj2
    (C7_fetch_failure Scenario.idx Scenario.u1 [] initial_state
       (Scenario.fetch_outage_at 0) Scenario.world H))) as Hc.
  change (Scenario.idx !! user_doc_id Scenario.u1) with (Some Scenario.s1_info) in Hc.
  exact (proj2 Hc).
Defined.

(** ** C5: the write raises *)

(** C5 (write-failure handling).  When the write of the new claims
    fails for a user who reaches it, the record appended has status
    [error]; the calls made for the user are the fetch and the write,
    with no revocation; [errors] (and [total]) grow by one and the other
    counters stay; the accounts are unchanged; and the loop goes on with
    the remaining users, one record each. *)
Theorem C5_write_failure idx user rest st env w info :
  let uid := user_doc_id user in
  truthy (py_get (fetched_claims uid env w) "storeId") = false →
  idx !! uid = Some info →
  write_ok uid info env w = false →
  let r := process_user idx user st env w in
  (∃ o, results r.1 = results st ++ [o]
        ∧ res_userId o = uid ∧ res_status o = "error")
  ∧ errors (stats r.1) = errors (stats st) + 1
  ∧ total (stats r.1) = total (stats st) + 1
  ∧ migrated (stats r.1) = migrated (stats st)
  ∧ already_has_claims (stats r.1) = already_has_claims (stats st)
  ∧ no_store (stats r.1) = no_store (stats st)
  ∧ trace r.2 = trace w ++ [GetUser uid; SetCustomUserClaims uid (new_claims_for info)]
  ∧ accounts r.2 = accounts w
  ∧ for_each_user idx (user :: rest) st env w = for_each_user idx rest r.1 env r.2
  ∧ length (results (for_each_user idx (user :: rest) st env w).1)
    = length (results st) + 1 + length rest.
Proof.
  intros uid Hcc Hidx Hok r.
  assert (for_each_user idx (user :: rest) st env w
          = for_each_user idx rest r.1 env r.2) as Hgo
    by apply for_each_user_cons.
  assert (length (results (for_each_user idx (user :: rest) st env w).1)
          = length (results st) + 1 + length rest) as Hlen
    by (rewrite for_each_user_length; simpl; lia).
  revert Hgo Hlen. unfold r.
  rewrite (process_user_write_fails _ _ _ _ _ info) by done.
  intros Hgo Hlen. simpl.
  split; [by exists (outcome_error user)|]. done.
Qed.

Lemma C5_write_failure_witness :
  (truthy (py_get (fetched_claims "u1" Scenario.write_outage Scenario.world) "storeId")
   = false
   ∧ Scenario.idx !! "u1" = Some Scenario.s1_info
   ∧ write_ok "u1" Scenario.s1_info Scenario.write_outage Scenario.world = false)
  ∧ errors (stats (process_user Scenario.idx Scenario.u1 initial_state
                     Scenario.write_outage Scenario.world).1) = 1.
Proof.
  assert (truthy (py_get (fetched_claims "u1" Scenario.write_outage Scenario.world)
                    "storeId") = false) as H1 by (vm_compute; reflexivity).
  assert (Scenario.idx !! "u1" = Some Scenario.s1_info) as H2
    by (vm_compute; reflexivity).
  assert (write_ok "u1" Scenario.s1_info Scenario.write_outage Scenario.world = false)
    as H3 by (vm_compute; reflexivity).
  split; [by repeat split|].
  exact (proj1 (proj2
    (C5_write_failure Scenario.idx Scenario.u1 [] initial_state
       Scenario.write_outage Scenario.world Scenario.s1_info H1 H2 H3))).
Defined.

(** ** C6: the revocation has no say *)

Lemma fetched_claims_same env env' uid w :
  same_fetch_and_write env env' →
  fetched_claims uid env' w = fetched_claims uid env w.
Proof.
  intros [Hg _]. unfold fetched_claims, get_user_current_claims.
  rewrite !run_bind. unfold auth_get_user. rewrite Hg.
  destruct (get_user_raises env _); [done|]. by destruct (accounts w !! uid).
Qed.

Lemma set_user_claims_same env env' uid claims w :
  same_fetch_and_write env env' →
  set_user_claims uid claims env' w = set_user_claims uid claims env w.
Proof.
  intros [_ Hs]. unfold set_user_claims.
  rewrite !run_bind. unfold auth_set_custom_user_claims. rewrite Hs.
  destruct (set_claims_raises env _); [done|]. by destruct (accounts w !! uid).
Qed.

Lemma process_user_same env env' idx user st w :
  same_fetch_and_write env env' →
  process_user idx user st env' w = process_user idx user st env w.
Proof.
  intros H. rewrite !process_user_eq. cbv zeta.
  rewrite (fetched_claims_same env env') by done.
  destruct (truthy _); [done|].
  destruct (idx !! user_doc_id user) as [info|]; [|done].
  by rewrite (set_user_claims_same env env').
Qed.

Lemma for_each_user_same env env' idx l st w :
  same_fetch_and_write env env' →
  for_each_user idx l st env' w = for_each_user idx l st env w.
Proof.
  intros H. revert st w. induction l as [|u l IH]; intros st w; [done|].
  by rewrite !for_each_user_cons, (process_user_same env env'), IH.
Qed.

(** C6 (invalidation never changes the status).  For a user who passes
    the already-has-claims and the no-store checks the status is
    [migrated] exactly when the write succeeded.  And whether the
    revocations raise has no influence at all: under two outage
    schedules that agree on the fetches and the writes, the loop body
    gives the same record, counters and world, and a whole run returns
    the same counters and writes the same report. *)
Theorem C6_invalidation_irrelevant env env' w :
  same_fetch_and_write env env' →
  (∀ idx user st info,
     truthy (py_get (fetched_claims (user_doc_id user) env w) "storeId") = false →
     idx !! user_doc_id user = Some info →
     (last_status (process_user idx user st env w).1 = Some "migrated"
      ↔ write_ok (user_doc_id user) info env w = true))
  ∧ (∀ idx user st,
       process_user idx user st env' w = process_user idx user st env w)
  ∧ (∀ db, migrate_claims db env' w = migrate_claims db env w).
Proof.
  intros Hsame. split; [|split].
  - intros idx user st info Hcc Hidx.
    destruct (write_ok (user_doc_id user) info env w) eqn:Hok.
    + rewrite (process_user_write_ok _ _ _ _ _ info) by done.
      cbn [fst]. by rewrite last_status_record.
    + rewrite (process_user_write_fails _ _ _ _ _ info) by done.
      cbn [fst]. rewrite last_status_record. simpl. split; intros; discriminate.
  - intros idx user st. by apply process_user_same.
  - intros db. destruct (get_all_stores (stores db)) as [idx|] eqn:Hidx.
    + rewrite !(migrate_claims_eq db idx) by done. cbv zeta.
      by rewrite (for_each_user_same env env').
    + by rewrite !migrate_claims_raises.
Qed.

Lemma C6_invalidation_irrelevant_witness :
  same_fetch_and_write Scenario.no_faults Scenario.revoke_outage
  ∧ (revoke_user_tokens "u1" Scenario.revoke_outage Scenario.world).1 = false
  ∧ migrate_claims Scenario.db Scenario.revoke_outage Scenario.world
    = migrate_claims Scenario.db Scenario.no_faults Scenario.world.
Proof.
  assert (same_fetch_and_write Scenario.no_faults Scenario.revoke_outage) as H
    by (split; intros n; reflexivity).
  split; [exact H|]. split; [reflexivity|].
  exact (proj2 (proj2
    (C6_invalidation_irrelevant Scenario.no_faults Scenario.revoke_outage
       Scenario.world H)) Scenario.db).
Defined.

(** ** C9: the ownership index *)

Lemma nonempty_owner_Some o owner_id :
  nonempty_owner o = Some owner_id ↔ o = Some owner_id ∧ owner_id ≠ "".
Proof.
  destruct o as [[|a s]|]; simpl; split; try (intros [? ?]); try intros ?;
    simplify_eq; try done.
Qed.

Lemma nonempty_owner_None o : nonempty_owner o = None ↔ o = None ∨ o = Some "".
Proof.
  destruct o as [[|a s]|]; simpl; split; try (intros [?|?]); try intros ?;
    simplify_eq; auto.
Qed.

Lemma store_name_of_Raises doc :
  store_name_of doc = Raises
  ↔ ∃ v, basicInfo doc = Some v ∧ ∀ info, v ≠ VDict info.
Proof.
  unfold store_name_of. destruct (basicInfo doc) as [v|]; simpl.
  - split.
    + intros H. exists v. split; [done|]. intros info ->. discriminate H.
    + intros (v' & [= <-] & Hv). destruct v; try done. by destruct (Hv d).
  - split; [discriminate|]. by intros (v & ? & _).
Qed.

Lemma breaks_index_iff doc :
  breaks_index doc
  ↔ is_Some (nonempty_owner (ownerId doc)) ∧ store_name_of doc = Raises.
Proof.
  unfold breaks_index. rewrite store_name_of_Raises. split.
  - intros [(o & Ho & Hne) Hv]. split; [|done].
    exists o. by apply nonempty_owner_Some.
  - intros [[o Ho] Hv]. split; [|done].
    apply nonempty_owner_Some in Ho. by exists o.
Qed.

(** One iteration: the plain fold step, unless the document breaks it. *)
Lemma index_store_cases idx doc :
  (¬ breaks_index doc ∧ index_store idx doc = Returns (add_entry idx doc))
  ∨ (breaks_index doc ∧ index_store idx doc = Raises).
Proof.
  rewrite breaks_index_iff. unfold index_store, add_entry, store_info_of, entry_of.
  destruct (nonempty_owner (ownerId doc)) as [o|].
  - destruct (store_name_of doc) as [name|].
    + left. split; [by intros [_ ?]|done].
    + right. split; [by split; [eexists|]|done].
  - left. split; [|done]. intros [[o Ho] _]. discriminate Ho.
Qed.

Lemma index_stores_cases idx docs :
  (Forall (λ d, ¬ breaks_index d) docs
   ∧ index_stores idx docs = Returns (foldl add_entry idx docs))
  ∨ (Exists breaks_index docs ∧ index_stores idx docs = Raises).
Proof.
  revert idx. induction docs as [|d docs IH]; intros idx.
  - left. by split.
  - simpl. destruct (index_store_cases idx d) as [[Hd ->]|[Hd ->]].
    + destruct (IH (add_entry idx d)) as [[Hdocs ->]|[Hdocs ->]].
      * left. split; [by constructor|done].
      * right. split; [by apply Exists_cons_tl|done].
    + right. split; [by apply Exists_cons_hd|done].
Qed.

(** [get_all_stores] returns the plain fold, or raises. *)
Lemma get_all_stores_cases docs :
  (Forall (λ d, ¬ breaks_index d) docs ∧ get_all_stores docs = Returns (index_of docs))
  ∨ (Exists breaks_index docs ∧ get_all_stores docs = Raises).
Proof. apply index_stores_cases. Qed.

Lemma get_all_stores_Returns docs idx :
  get_all_stores docs = Returns idx →
  idx = index_of docs ∧ Forall (λ d, ¬ breaks_index d) docs.
Proof.
  destruct (get_all_stores_cases docs) as [[Hdocs ->]|[_ ->]]; [|discriminate].
  by intros [= <-].
Qed.

Lemma entry_of_readable (d : StoreDoc) :
  ¬ breaks_index d → is_Some (nonempty_owner (ownerId d)) →
  store_info_of d = Returns (entry_of d).
Proof.
  rewrite breaks_index_iff. intros Hd Ho. unfold store_info_of, entry_of.
  destruct (store_name_of d); [done|]. by destruct Hd.
Qed.

Lemma add_entry_ownerless idx doc : ownerless doc → add_entry idx doc = idx.
Proof.
  intros H. apply nonempty_owner_None in H. unfold add_entry. by rewrite H.
Qed.

Lemma index_of_snoc docs doc :
  index_of (docs ++ [doc]) = add_entry (index_of docs) doc.
Proof. unfold index_of. by rewrite foldl_app. Qed.

(** Later documents of other owners leave an entry as it is. *)
Lemma foldl_add_entry_other idx docs o :
  Forall (λ d, ownerId d ≠ Some o) docs →
  foldl add_entry idx docs !! o = idx !! o.
Proof.
  intros H. revert idx. induction H as [|d docs Hd _ IH]; intros idx; [done|].
  simpl. rewrite IH. unfold add_entry.
  destruct (nonempty_owner (ownerId d)) as [o'|] eqn:Ho; [|done].
  apply nonempty_owner_Some in Ho as [Ho _].
  rewrite lookup_insert_ne; [done|]. congruence.
Qed.

Lemma index_of_origin docs o info :
  index_of docs !! o = Some info →
  o ≠ "" ∧ ∃ d, d ∈ docs ∧ ownerId d = Some o ∧ info = entry_of d.
Proof.
  induction docs as [|d docs IH] using rev_ind; [done|].
  rewrite index_of_snoc. unfold add_entry.
  destruct (nonempty_owner (ownerId d)) as [o'|] eqn:Ho.
  - apply nonempty_owner_Some in Ho as [Ho Hne].
    destruct (decide (o' = o)) as [->|Hoo].
    + rewrite lookup_insert_eq. intros [= <-]. split; [done|].
      exists d. rewrite elem_of_app, list_elem_of_singleton. auto.
    + rewrite lookup_insert_ne by done. intros H.
      destruct (IH H) as (Hn & d' & Hin & Hd'). split; [done|].
      exists d'. rewrite elem_of_app. auto.
  - intros H. destruct (IH H) as (Hn & d' & Hin & Hd'). split; [done|].
    exists d'. rewrite elem_of_app. auto.
Qed.

(** C9 (ownership-index construction), where the script departs from
    it.  A store document with a non-empty [ownerId] whose [basicInfo]
    is present but null has no name, and should be filed under its owner
    with the placeholder ['Sin nombre'].  Line 53 guards a missing
    [basicInfo] with [.get('basicInfo', {})] but not a null one (line 64
    guards its null with [or {}]): the expression raises, nothing in
    [get_all_stores] or [migrate_claims] catches it, no index is built
    and the run ends before the first user is read.  Without that one
    document the same stream is indexed. *)
Theorem C9_null_basicInfo_raises :
  ownerId Scenario.s4 = Some "u3"
  ∧ basicInfo Scenario.s4 = Some VNone
  ∧ store_name_of Scenario.s4 = Raises
  ∧ get_all_stores [Scenario.s4] = Raises
  ∧ get_all_stores [Scenario.s1; Scenario.s2; Scenario.s4] = Raises
  ∧ get_all_stores [Scenario.s1; Scenario.s2] = Returns Scenario.idx
  ∧ ∀ env w, migrate_claims Scenario.db_null_info env w = (Raises, w).
Proof. by repeat split. Qed.

(** ** C10: an empty ownership index *)

Lemma get_all_stores_ownerless docs :
  Forall ownerless docs → get_all_stores docs = Returns ∅.
Proof.
  unfold get_all_stores. induction 1 as [|d docs Hd _ IH]; [done|].
  simpl. unfold index_store.
  apply nonempty_owner_None in Hd. by rewrite Hd.
Qed.

Lemma process_user_empty_index user st env w :
  let r := process_user ∅ user st env w in
  r.2 = record_call (GetUser (user_doc_id user)) w
  ∧ migrated (stats r.1) = migrated (stats st)
  ∧ errors (stats r.1) = errors (stats st)
  ∧ ∃ o, results r.1 = results st ++ [o]
       ∧ (res_status o = "already_has_claims" ∨ res_status o = "no_store").
Proof.
  intros r. unfold r.
  destruct (truthy (py_get (fetched_claims (user_doc_id user) env w) "storeId"))
    eqn:Hcc.
  - rewrite process_user_already by done. simpl. repeat split.
    eexists. split; [done|]. by left.
  - rewrite process_user_no_store by done. simpl. repeat split.
    eexists. split; [done|]. by right.
Qed.

Lemma for_each_user_empty_index l st env w :
  let r := for_each_user ∅ l st env w in
  trace r.2 = trace w ++ (GetUser <$> (user_doc_id <$> l))
  ∧ accounts r.2 = accounts w
  ∧ migrated (stats r.1) = migrated (stats st)
  ∧ errors (stats r.1) = errors (stats st)
  ∧ ∃ os, results r.1 = results st ++ os
        ∧ Forall (λ o, res_status o = "already_has_claims"
                       ∨ res_status o = "no_store") os.
Proof.
  revert st w. induction l as [|u l IH]; intros st w.
  - simpl. rewrite app_nil_r. repeat split. exists []. by rewrite app_nil_r.
  - cbv zeta. rewrite for_each_user_cons.
    destruct (process_user_empty_index u st env w) as (Hw & Hm & He & o & Hr & Ho).
    destruct (IH (process_user ∅ u st env w).1 (process_user ∅ u st env w).2)
      as (IHt & IHa & IHm & IHe & os & IHr & IHo).
    rewrite IHt, IHa, IHm, IHe, IHr, Hw, Hm, He, Hr. simpl.
    rewrite <- !app_assoc. repeat split.
    exists (o :: os). split; [done|]. by constructor.
Qed.

(** C10 (no mutation when the ownership index is empty).  When no store
    document has a non-empty [ownerId] the index is built and empty, and
    a whole run calls the Identity store only to fetch, once per user in the
    order of the stream: no claim write, no revocation, the accounts
    unchanged.  Every record of the report is [already_has_claims] or
    [no_store], and [migrated] and [errors] are both zero. *)
Theorem C10_empty_index_no_mutation db env w :
  Forall ownerless (stores db) →
  let r := migrate_claims db env w in
  get_all_stores (stores db) = Returns ∅
  ∧ trace r.2 = trace w ++ (GetUser <$> (user_doc_id <$> users db))
  ∧ accounts r.2 = accounts w
  ∧ ∃ s, r.1 = Returns s
      ∧ migrated s = 0
      ∧ errors s = 0
      ∧ ∃ report, log_files r.2 = log_files w ++ [report]
          ∧ report_stats report = s
          ∧ length (report_results report) = length (users db)
          ∧ Forall (λ o, res_status o = "already_has_claims"
                         ∨ res_status o = "no_store") (report_results report).
Proof.
  intros Hdocs r. unfold r.
  pose proof (get_all_stores_ownerless _ Hdocs) as Hidx.
  rewrite (migrate_claims_eq db ∅) by done. cbv zeta. simpl.
  pose proof (for_each_user_log_files ∅ (users db) initial_state env w) as Hlog.
  pose proof (for_each_user_length ∅ (users db) initial_state env w) as Hlen.
  destruct (for_each_user_empty_index (users db) initial_state env w)
    as (Ht & Ha & Hm & He & os & Hr & Hos).
  split; [done|]. split; [done|]. split; [done|].
  eexists. split; [reflexivity|]. split; [done|]. split; [done|].
  eexists. rewrite Hlog. split; [done|]. simpl. split; [done|].
  split; [done|]. by rewrite Hr.
Qed.

Lemma C10_empty_index_no_mutation_witness :
  Forall ownerless (stores Scenario.db_ownerless)
  ∧ trace (migrate_claims Scenario.db_ownerless Scenario.no_faults Scenario.world).2
    = [GetUser "u1"; GetUser "u2"; GetUser "u3"].
Proof.
  assert (Forall ownerless (stores Scenario.db_ownerless)) as H
    by (repeat constructor).
  split; [exact H|].
  exact (proj1 (proj2
    (C10_empty_index_no_mutation Scenario.db_ownerless Scenario.no_faults
       Scenario.world H))).
Defined.

(** ** C1: running the migration again *)

Lemma has_store_claim_false_fetched uid env w :
  has_store_claim w uid = false →
  truthy (py_get (fetched_claims uid env w) "storeId") = false.
Proof.
  intros H. destruct (fetch_raises uid env w) eqn:Hr.
  - by rewrite fetched_claims_raises.
  - destruct (fetched_claims_returns uid env w Hr) as (cc & Hacc & ->).
    unfold has_store_claim in H. rewrite Hacc in H.
    by destruct cc.
Qed.

Lemma has_store_claim_true_fetched uid env w :
  has_store_claim w uid = true →
  fetch_raises uid env w = false →
  truthy (py_get (fetched_claims uid env w) "storeId") = true.
Proof.
  intros H Hr.
  destruct (fetched_claims_returns uid env w Hr) as (cc & Hacc & ->).
  unfold has_store_claim in H. rewrite Hacc in H.
  by destruct cc.
Qed.

Lemma fetch_raises_false uid env w :
  is_Some (accounts w !! uid) →
  get_user_raises env (length (trace w)) = false →
  fetch_raises uid env w = false.
Proof.
  intros [cc Hcc] Hg. unfold fetch_raises, auth_get_user. by rewrite Hg, Hcc.
Qed.

Lemma has_store_claim_new_claims w uid info :
  storeId info ≠ "" →
  accounts w !! uid = Some (Some (new_claims_for info)) →
  has_store_claim w uid = true.
Proof.
  intros Hne Hacc. unfold has_store_claim. rewrite Hacc.
  unfold py_get, new_claims_for. rewrite lookup_insert_eq. simpl.
  by destruct (storeId info).
Qed.


Lemma has_store_claim_accounts w w' uid :
  accounts w' = accounts w → has_store_claim w' uid = has_store_claim w uid.
Proof. unfold has_store_claim. by intros ->. Qed.

Lemma has_store_claim_is_Some w uid :
  has_store_claim w uid = true → is_Some (accounts w !! uid).
Proof. unfold has_store_claim. destruct (accounts w !! uid); [eauto|done]. Qed.




(** * Further properties of the script *)

(** ** The ownership index as a map *)

Lemma index_of_last pre d post o :
  nonempty_owner (ownerId d) = Some o →
  o ∉ owners_of post →
  index_of (pre ++ d :: post) !! o = Some (entry_of d).
Proof.
  intros Ho Hpost. unfold index_of. rewrite foldl_app. simpl.
  rewrite foldl_add_entry_other.
  - unfold add_entry. rewrite Ho. apply lookup_insert_eq.
  - apply Forall_forall. intros d' Hd' Hown. apply Hpost.
    apply list_elem_of_omap. exists d'. split; [done|].
    apply nonempty_owner_Some. split; [done|].
    by apply nonempty_owner_Some in Ho as [_ ?].
Qed.

Lemma index_of_is_Some docs o :
  is_Some (index_of docs !! o) ↔ o ∈ owners_of docs.
Proof.
  induction docs as [|d docs IH] using rev_ind.
  - unfold index_of, owners_of. simpl. rewrite lookup_empty, elem_of_nil.
    split; [by intros [? ?]|done].
  - rewrite index_of_snoc. unfold owners_of, add_entry in *.
    rewrite omap_app, elem_of_app. simpl.
    destruct (nonempty_owner (ownerId d)) as [o'|] eqn:Ho.
    + rewrite list_elem_of_singleton.
      destruct (decide (o' = o)) as [->|Hne].
      * rewrite lookup_insert_eq. split; [auto|eauto].
      * rewrite lookup_insert_ne by done. rewrite IH. split; [auto|].
        intros [?|?]; [done|congruence].
    + rewrite IH, elem_of_nil. tauto.
Qed.

Lemma index_of_size docs :
  size (index_of docs) ≤ length (owners_of docs).
Proof.
  induction docs as [|d docs IH] using rev_ind; [done|].
  rewrite index_of_snoc. unfold owners_of, add_entry in *.
  rewrite omap_app, length_app. simpl.
  destruct (nonempty_owner (ownerId d)) as [o'|]; simpl; [|lia].
  rewrite map_size_insert.
  destruct (index_of docs !! o'); simpl; unfold id.
  - eapply Nat.le_trans; [exact IH|lia].
  - eapply Nat.le_trans; [exact (le_n_S _ _ IH)|lia].
Qed.

(** X1.  The keys of an index that was built are exactly the non-empty
    owner ids of the stream, so the index never has more entries than
    there are documents with an owner, and never the empty string as a
    key. *)
Theorem X1_index_keys docs idx :
  get_all_stores docs = Returns idx →
  (∀ o, is_Some (idx !! o)
        ↔ o ≠ "" ∧ ∃ d, d ∈ docs ∧ ownerId d = Some o)
  ∧ size idx ≤ length (owners_of docs)
  ∧ length (owners_of docs) ≤ length docs.
Proof.
  intros Hidx. apply get_all_stores_Returns in Hidx as [-> _].
  split; [|split].
  - intros o. rewrite index_of_is_Some. unfold owners_of.
    rewrite list_elem_of_omap. split.
    + intros (d & Hd & Ho). apply nonempty_owner_Some in Ho as [? ?]. eauto.
    + intros (Hne & d & Hd & Ho). exists d. split; [done|].
      by apply nonempty_owner_Some.
  - apply index_of_size.
  - unfold owners_of. induction docs as [|d docs IH]; [done|].
    change (d :: docs) with ([d] ++ docs). rewrite omap_app, !length_app.
    apply Nat.add_le_mono; [|exact IH].
    simpl. destruct (nonempty_owner (ownerId d)); simpl; lia.
Qed.

Lemma X1_index_keys_witness :
  get_all_stores [Scenario.s1; Scenario.s2; Scenario.s3] =
    Returns {[ "u1" := {| storeId := "S3"; storeName := VStr "Sin nombre" |} ]}
  ∧ size ({[ "u1" := {| storeId := "S3"; storeName := VStr "Sin nombre" |} ]}
            : gmap string StoreInfo)
    ≤ length (owners_of [Scenario.s1; Scenario.s2; Scenario.s3]).
Proof.
  assert (get_all_stores [Scenario.s1; Scenario.s2; Scenario.s3] =
            Returns {[ "u1" := {| storeId := "S3"; storeName := VStr "Sin nombre" |} ]})
    as H by reflexivity.
  split; [exact H|].
  exact (proj1 (proj2 (X1_index_keys _ _ H))).
Defined.

Lemma index_of_app l1 l2 : index_of (l1 ++ l2) = index_of l2 ∪ index_of l1.
Proof.
  induction l2 as [|d l2 IH] using rev_ind.
  - rewrite app_nil_r. unfold index_of at 2. simpl.
    by rewrite (left_id_L ∅ (∪)).
  - rewrite app_assoc, !index_of_snoc, IH. unfold add_entry.
    destruct (nonempty_owner (ownerId d)); [|done].
    by rewrite insert_union_l.
Qed.

Lemma Forall_not_breaks_Exists docs :
  Forall (λ d, ¬ breaks_index d) docs → Exists breaks_index docs → False.
Proof.
  rewrite Forall_forall, Exists_exists. intros Hall (d & Hd & Hb).
  by apply (Hall d).
Qed.

(** X2.  Indexing a stream in two parts: when both parts can be
    indexed, the index of [l1 ++ l2] is the index of [l2] laid over the
    index of [l1], the later part winning on shared owners; when either
    part raises, so does the whole. *)
Theorem X2_index_of_append l1 l2 :
  get_all_stores (l1 ++ l2)
  = match get_all_stores l1, get_all_stores l2 with
    | Returns idx1, Returns idx2 => Returns (idx2 ∪ idx1)
    | _, _ => Raises
    end.
Proof.
  destruct (get_all_stores_cases l1) as [[H1 E1]|[H1 E1]];
    destruct (get_all_stores_cases l2) as [[H2 E2]|[H2 E2]];
    destruct (get_all_stores_cases (l1 ++ l2)) as [[H E]|[H E]];
    rewrite E, E1, ?E2; try done.
  - by rewrite index_of_app.
  - exfalso. apply Exists_app in H as [H|H];
      eauto using Forall_not_breaks_Exists.
  - exfalso. apply Forall_app in H as [_ H].
    eauto using Forall_not_breaks_Exists.
  - exfalso. apply Forall_app in H as [H _].
    eauto using Forall_not_breaks_Exists.
  - exfalso. apply Forall_app in H as [H _].
    eauto using Forall_not_breaks_Exists.
Qed.

Lemma index_of_unique docs d o :
  NoDup (owners_of docs) →
  d ∈ docs →
  nonempty_owner (ownerId d) = Some o →
  index_of docs !! o = Some (entry_of d).
Proof.
  intros Hnd Hd Ho. apply list_elem_of_split in Hd as (pre & post & ->).
  apply index_of_last; [done|].
  unfold owners_of in Hnd. rewrite omap_app in Hnd. simpl in Hnd.
  rewrite Ho in Hnd. apply NoDup_app in Hnd as (_ & _ & Hnd).
  by apply NoDup_cons in Hnd as [? _].
Qed.

Lemma index_of_permutation docs docs' :
  NoDup (owners_of docs) →
  docs ≡ₚ docs' →
  index_of docs' = index_of docs.
Proof.
  intros Hnd Hperm.
  assert (NoDup (owners_of docs')) as Hnd'.
  { unfold owners_of in *. by rewrite <- Hperm. }
  assert (∀ l l' o info, NoDup (owners_of l') → l ≡ₚ l' →
            index_of l !! o = Some info →
            index_of l' !! o = Some info) as Hmove.
  { intros l l' o info Hl' Hp Hlook.
    apply index_of_origin in Hlook as (Hne & d & Hd & Ho & ->).
    apply index_of_unique; [done|by rewrite <- Hp|].
    by apply nonempty_owner_Some. }
  apply map_eq. intros o.
  destruct (index_of docs !! o) as [info|] eqn:Hlook.
  - by apply (Hmove docs docs').
  - destruct (index_of docs' !! o) as [info'|] eqn:Hlook'; [|done].
    apply (Hmove docs' docs) in Hlook'; [congruence|done|done].
Qed.

(** X3.  When no two documents share a non-empty owner, the result of
    [get_all_stores], the index or the exception, does not depend on
    the order in which the store stream yields them. *)
Theorem X3_index_order_irrelevant docs docs' :
  NoDup (owners_of docs) →
  docs ≡ₚ docs' →
  get_all_stores docs' = get_all_stores docs.
Proof.
  intros Hnd Hperm.
  destruct (get_all_stores_cases docs) as [[H ->]|[H ->]];
    destruct (get_all_stores_cases docs') as [[H' ->]|[H' ->]]; try done.
  - f_equal. by apply index_of_permutation.
  - exfalso. rewrite <- Hperm in H'. eauto using Forall_not_breaks_Exists.
  - exfalso. rewrite <- Hperm in H'. eauto using Forall_not_breaks_Exists.
Qed.

Lemma X3_index_order_irrelevant_witness :
  (NoDup (owners_of [Scenario.s1; Scenario.s2; Scenario.s5])
   ∧ [Scenario.s1; Scenario.s2; Scenario.s5]
     ≡ₚ [Scenario.s5; Scenario.s2; Scenario.s1])
  ∧ get_all_stores [Scenario.s5; Scenario.s2; Scenario.s1]
    = get_all_stores [Scenario.s1; Scenario.s2; Scenario.s5].
Proof.
  assert (NoDup (owners_of [Scenario.s1; Scenario.s2; Scenario.s5])) as H1.
  { change (NoDup ["u1"; "u2"]). apply NoDup_cons. split.
    - rewrite list_elem_of_singleton. discriminate.
    - apply NoDup_singleton. }
  assert ([Scenario.s1; Scenario.s2; Scenario.s5]
          ≡ₚ [Scenario.s5; Scenario.s2; Scenario.s1]) as H2.
  { change ([Scenario.s1; Scenario.s2; Scenario.s5]
            ≡ₚ reverse [Scenario.s1; Scenario.s2; Scenario.s5]).
    symmetry. apply reverse_Permutation. }
  split; [by split|].
  exact (X3_index_order_irrelevant _ _ H1 H2).
Defined.

(** X14.  What an index that was built holds.  A store document with a
    non-empty [ownerId] that is the last one of its owner in the stream
    is what the index holds for that owner: its document id and its
    [basicInfo.name], or the placeholder ['Sin nombre'] when
    [basicInfo] is missing or has no [name].  So of two stores of one
    owner the later one wins.  A document whose [ownerId] is missing or
    empty changes nothing, whatever its [basicInfo], and every entry of
    the index comes from a document with that non-empty owner. *)
Theorem X14_index_construction :
  (∀ pre d post o idx,
     get_all_stores (pre ++ d :: post) = Returns idx →
     ownerId d = Some o → o ≠ "" →
     Forall (λ d', ownerId d' ≠ Some o) post →
     ∃ name,
       idx !! o = Some {| storeId := store_doc_id d; storeName := name |}
       ∧ (basicInfo d = None → name = VStr "Sin nombre")
       ∧ (∀ info, basicInfo d = Some (VDict info) →
            name = default (VStr "Sin nombre") (info !! "name")))
  ∧ (∀ pre d1 mid d2 post o idx,
       get_all_stores (pre ++ d1 :: mid ++ d2 :: post) = Returns idx →
       ownerId d1 = Some o → ownerId d2 = Some o → o ≠ "" →
       Forall (λ d', ownerId d' ≠ Some o) post →
       ∃ info, store_info_of d2 = Returns info ∧ idx !! o = Some info)
  ∧ (∀ pre d post,
       ownerless d →
       get_all_stores (pre ++ d :: post) = get_all_stores (pre ++ post))
  ∧ (∀ docs idx o info,
       get_all_stores docs = Returns idx →
       idx !! o = Some info →
       o ≠ "" ∧ ∃ d, d ∈ docs ∧ ownerId d = Some o
                     ∧ store_info_of d = Returns info).
Proof.
  assert (∀ pre d post o idx,
            get_all_stores (pre ++ d :: post) = Returns idx →
            ownerId d = Some o → o ≠ "" →
            Forall (λ d', ownerId d' ≠ Some o) post →
            store_info_of d = Returns (entry_of d)
            ∧ idx !! o = Some (entry_of d)) as Hlast.
  { intros pre d post o idx Hidx Ho Hne Hpost.
    apply get_all_stores_Returns in Hidx as [-> Hall].
    assert (nonempty_owner (ownerId d) = Some o) as Hown
      by by apply nonempty_owner_Some.
    split.
    - apply entry_of_readable; [|by rewrite Hown].
      rewrite Forall_forall in Hall. apply Hall.
      rewrite elem_of_app, elem_of_cons. auto.
    - unfold index_of. rewrite foldl_app. simpl.
      rewrite foldl_add_entry_other by done.
      unfold add_entry. rewrite Hown. by rewrite lookup_insert_eq. }
  split; [|split; [|split]].
  - intros pre d post o idx Hidx Ho Hne Hpost.
    destruct (Hlast pre d post o idx Hidx Ho Hne Hpost) as [Hinfo Hlook].
    exists (storeName (entry_of d)). split; [exact Hlook|].
    revert Hinfo. unfold store_info_of, entry_of, store_name_of, py_get_default.
    split.
    + intros ->. done.
    + intros info ->. done.
  - intros pre d1 mid d2 post o idx Hidx _ Ho Hne Hpost.
    replace (pre ++ d1 :: mid ++ d2 :: post) with ((pre ++ d1 :: mid) ++ d2 :: post)
      in Hidx by (by rewrite <- app_assoc).
    exists (entry_of d2). by apply (Hlast (pre ++ d1 :: mid) d2 post o idx).
  - intros pre d post Hd. unfold get_all_stores.
    assert (∀ idx l1 l2, index_stores idx (l1 ++ d :: l2)
                         = index_stores idx (l1 ++ l2)) as Hskip.
    { intros idx l1. revert idx. induction l1 as [|d' l1 IH]; intros idx l2.
      - simpl. unfold index_store. apply nonempty_owner_None in Hd.
        by rewrite Hd.
      - simpl. destruct (index_store idx d'); [apply IH|done]. }
    apply Hskip.
  - intros docs idx o info Hidx Hlook.
    apply get_all_stores_Returns in Hidx as [-> Hall].
    apply index_of_origin in Hlook as (Hne & d & Hd & Ho & ->).
    split; [done|]. exists d. split; [done|]. split; [done|].
    apply entry_of_readable.
    + rewrite Forall_forall in Hall. by apply Hall.
    + exists o. by apply nonempty_owner_Some.
Qed.

Lemma X14_index_construction_witness :
  (get_all_stores ([Scenario.s1] ++ Scenario.s3 :: [Scenario.s2])
   = Returns {[ "u1" := {| storeId := "S3"; storeName := VStr "Sin nombre" |} ]}
   ∧ ownerId Scenario.s3 = Some "u1" ∧ "u1" ≠ ""
   ∧ Forall (λ d', ownerId d' ≠ Some "u1") [Scenario.s2])
  ∧ ∃ name,
      ({[ "u1" := {| storeId := "S3"; storeName := VStr "Sin nombre" |} ]}
         : gmap string StoreInfo) !! "u1"
      = Some {| storeId := store_doc_id Scenario.s3; storeName := name |}.
Proof.
  assert (get_all_stores ([Scenario.s1] ++ Scenario.s3 :: [Scenario.s2])
          = Returns {[ "u1" := {| storeId := "S3";
                                  storeName := VStr "Sin nombre" |} ]}) as H0
    by reflexivity.
  assert (ownerId Scenario.s3 = Some "u1") as H1 by reflexivity.
  assert ("u1" ≠ "") as H2 by discriminate.
  assert (Forall (λ d', ownerId d' ≠ Some "u1") [Scenario.s2]) as H3
    by (repeat constructor; discriminate).
  split; [by repeat split|].
  destruct (proj1 X14_index_construction [Scenario.s1] Scenario.s3 [Scenario.s2]
              "u1" _ H0 H1 H2 H3) as (name & Hlook & _).
  by exists name.
Defined.



(** ** Invariants of the loop *)

Lemma write_ok_account uid info env w :
  write_ok uid info env w = true → is_Some (accounts w !! uid).
Proof.
  unfold write_ok, after_fetch. intros H.
  destruct (set_user_claims_cases uid (new_claims_for info) env
              (record_call (GetUser uid) w)) as [(_ & Hacc & _)|(Heq & _)].
  - exact Hacc.
  - rewrite Heq in H. discriminate H.
Qed.

(** The four ways one iteration can go, with the state and the world
    each leaves. *)
Lemma process_user_cases idx user st env w :
  let uid := user_doc_id user in
  let cc := fetched_claims uid env w in
  (truthy (py_get cc "storeId") = true
   ∧ process_user idx user st env w
     = (record_outcome incr_already_has_claims (outcome_already user cc) (counted st),
        record_call (GetUser uid) w))
  ∨ (truthy (py_get cc "storeId") = false ∧ idx !! uid = None
     ∧ process_user idx user st env w
       = (record_outcome incr_no_store (outcome_no_store user) (counted st),
          record_call (GetUser uid) w))
  ∨ (∃ info, truthy (py_get cc "storeId") = false ∧ idx !! uid = Some info
       ∧ is_Some (accounts w !! uid)
       ∧ process_user idx user st env w
         = (record_outcome incr_migrated (outcome_migrated user info) (counted st),
            {| accounts := <[uid := Some (new_claims_for info)]> (accounts w);
               trace := trace w ++ [GetUser uid;
                                    SetCustomUserClaims uid (new_claims_for info);
                                    RevokeRefreshTokens uid];
               log_files := log_files w |}))
  ∨ (∃ info, truthy (py_get cc "storeId") = false ∧ idx !! uid = Some info
       ∧ process_user idx user st env w
         = (record_outcome incr_errors (outcome_error user) (counted st),
            {| accounts := accounts w;
               trace := trace w ++ [GetUser uid;
                                    SetCustomUserClaims uid (new_claims_for info)];
               log_files := log_files w |})).
Proof.
  intros uid cc.
  destruct (truthy (py_get cc "storeId")) eqn:Hcc.
  { left. split; [done|]. by apply process_user_already. }
  destruct (idx !! uid) as [info|] eqn:Hidx.
  2:{ right; left. split; [done|]. split; [done|]. by apply process_user_no_store. }
  destruct (write_ok uid info env w) eqn:Hok.
  - right; right; left. exists info. split; [done|]. split; [done|].
    split; [by apply (write_ok_account uid info env)|].
    by apply process_user_write_ok.
  - right; right; right. exists info. split; [done|]. split; [done|].
    by apply process_user_write_fails.
Qed.

(** Induction over the loop, on the accumulators and the world together. *)
Lemma for_each_user_rel (P : LoopState → World → Prop) idx env l :
  (∀ u st w, u ∈ l → P st w →
     P (process_user idx u st env w).1 (process_user idx u st env w).2) →
  ∀ st w, P st w →
    P (for_each_user idx l st env w).1 (for_each_user idx l st env w).2.
Proof.
  induction l as [|u l IH]; intros Hstep st w HP; [done|].
  rewrite for_each_user_cons. apply IH.
  - intros u' st' w' Hu'. apply Hstep. by right.
  - apply Hstep; [by left|done].
Qed.

Lemma calls_for_already idx user cc :
  calls_for idx (outcome_already user cc) = [GetUser (user_doc_id user)].
Proof. unfold calls_for. simpl. by destruct (idx !! user_doc_id user). Qed.

Lemma calls_for_no_store idx user :
  calls_for idx (outcome_no_store user) = [GetUser (user_doc_id user)].
Proof. unfold calls_for. simpl. by destruct (idx !! user_doc_id user). Qed.

Lemma for_each_user_trace idx l env w :
  let r := for_each_user idx l initial_state env w in
  trace r.2 = trace w ++ concat (calls_for idx <$> results r.1).
Proof.
  apply (for_each_user_rel
           (λ st w', trace w' = trace w ++ concat (calls_for idx <$> results st))).
  2:{ simpl. by rewrite app_nil_r. }
  intros u st w' _ HP.
  destruct (process_user_cases idx u st env w')
    as [(_ & ->)|[(_ & _ & ->)|[(info & _ & Hidx & _ & ->)|(info & _ & Hidx & ->)]]];
    simpl; rewrite fmap_app, concat_app, HP, <- app_assoc; simpl; f_equal.
  - by rewrite calls_for_already.
  - by rewrite calls_for_no_store.
  - unfold calls_for. simpl. by rewrite Hidx.
  - unfold calls_for. simpl. by rewrite Hidx.
Qed.

Lemma for_each_user_call_count idx l env w :
  let r := for_each_user idx l initial_state env w in
  length (trace r.2)
  = length (trace w) + total (stats r.1) + 2 * migrated (stats r.1)
    + errors (stats r.1).
Proof.
  apply (for_each_user_rel
           (λ st w', length (trace w')
                     = length (trace w) + total (stats st)
                       + 2 * migrated (stats st) + errors (stats st))).
  2:{ simpl. lia. }
  intros u st w' _ HP.
  destruct (process_user_cases idx u st env w')
    as [(_ & ->)|[(_ & _ & ->)|[(info & _ & _ & _ & ->)|(info & _ & _ & ->)]]];
    simpl; rewrite length_app; simpl; lia.
Qed.

(** X5.  The number of Identity-store calls of a run for which the
    index was built: one fetch per user, one write per migrated or
    failed user, one revocation per migrated user.  So a run over [n]
    users makes at least [n] and at most [3 n] calls. *)
Theorem X5_call_count db idx env w :
  get_all_stores (stores db) = Returns idx →
  let r := migrate_claims db env w in
  ∃ s, r.1 = Returns s
    ∧ length (trace r.2)
      = length (trace w) + total s + 2 * migrated s + errors s
    ∧ length (trace w) + length (users db) ≤ length (trace r.2)
    ∧ length (trace r.2) ≤ length (trace w) + 3 * length (users db).
Proof.
  intros Hidx r. unfold r. rewrite (migrate_claims_eq db idx) by done.
  cbv zeta. cbn [fst snd trace]. eexists. split; [reflexivity|].
  pose proof (for_each_user_call_count idx (users db) env w) as Hn.
  pose proof (for_each_user_tallied idx (users db) initial_state env w
                initial_state_tallied) as (Htot & Hm & Ha & Hs & He).
  pose proof (for_each_user_length idx (users db) initial_state env w) as Hlen.
  cbv zeta in Hn. simpl in Hlen.
  assert (Forall (λ o, res_status o ∈ statuses)
            (results (for_each_user idx (users db) initial_state env w).1)) as Hall.
  { apply (for_each_user_invariant
             (λ st, Forall (λ o, res_status o ∈ statuses) (results st)));
      [|by constructor].
    intros u st env' w' Hst.
    destruct (process_user_step idx u st env' w') as (o & _ & Hcase).
    unfold statuses.
    destruct Hcase as [(Hs' & Hr & _)|[(Hs' & Hr & _)|[(Hs' & Hr & _)|(Hs' & Hr & _)]]];
      rewrite Hr; apply Forall_app; (split; [done|]);
      apply Forall_singleton; rewrite Hs'; set_solver. }
  apply count_status_total in Hall.
  split; [done|]. lia.
Qed.

(** X6.  The calls of a run for which the index was built can be read
    off its report: the trace grows by the calls of each record in turn.  So every write carries exactly
    [{storeId: the owner's store, role: 'owner'}], is made for an owner
    of the index right after that user's fetch, and every revocation
    directly follows the write of the same user. *)
Theorem X6_calls_follow_report db idx env w :
  get_all_stores (stores db) = Returns idx →
  let r := migrate_claims db env w in
  ∃ report,
    log_files r.2 = log_files w ++ [report]
    ∧ trace r.2
      = trace w ++ concat (calls_for idx <$> report_results report).
Proof.
  intros Hidx r. unfold r. rewrite (migrate_claims_eq db idx) by done. cbv zeta.
  cbn [fst snd trace log_files].
  eexists. rewrite for_each_user_log_files. split; [done|].
  cbn [report_results]. apply for_each_user_trace.
Qed.

(** ** What a run does to the accounts *)

Lemma for_each_user_accounts idx l st env w :
  let r := for_each_user idx l st env w in
  dom (accounts r.2) = dom (accounts w)
  ∧ ∀ uid,
      accounts r.2 !! uid = accounts w !! uid
      ∨ (uid ∈ user_doc_id <$> l
         ∧ is_Some (accounts w !! uid)
         ∧ ∃ info, idx !! uid = Some info
                   ∧ accounts r.2 !! uid = Some (Some (new_claims_for info))).
Proof.
  apply (for_each_user_rel
           (λ _ w', dom (accounts w') = dom (accounts w)
                    ∧ ∀ uid,
                        accounts w' !! uid = accounts w !! uid
                        ∨ (uid ∈ user_doc_id <$> l
                           ∧ is_Some (accounts w !! uid)
                           ∧ ∃ info, idx !! uid = Some info
                               ∧ accounts w' !! uid
                                 = Some (Some (new_claims_for info))))).
  2:{ split; [done|]. intros uid. by left. }
  intros u st' w' Hu [Hdom HP].
  destruct (process_user_cases idx u st' env w')
    as [(_ & ->)|[(_ & _ & ->)|[(info & _ & Hidx & Hsome & ->)|(info & _ & _ & ->)]]];
    cbn [fst snd accounts record_call]; try done.
  split.
  - rewrite dom_insert_lookup_L; done.
  - intros uid. destruct (decide (uid = user_doc_id u)) as [->|Hne].
    + right. split; [by apply list_elem_of_fmap_2|]. split.
      * apply elem_of_dom. rewrite <- Hdom. by apply elem_of_dom.
      * exists info. split; [done|]. apply lookup_insert_eq.
    + rewrite lookup_insert_ne by done. apply HP.
Qed.

(** X7.  A run neither creates nor deletes an account.  The only
    accounts whose claims can differ afterwards are those of users of
    the stream who own a store in the index, and such an account then
    holds exactly [{storeId: that store, role: 'owner'}]: whatever other
    custom claims it had are gone. *)
Theorem X7_accounts_frame db env w :
  let r := migrate_claims db env w in
  dom (accounts r.2) = dom (accounts w)
  ∧ ∀ uid,
      accounts r.2 !! uid = accounts w !! uid
      ∨ (uid ∈ user_doc_id <$> users db
         ∧ is_Some (accounts w !! uid)
         ∧ ∃ idx info, get_all_stores (stores db) = Returns idx
                       ∧ idx !! uid = Some info
                       ∧ accounts r.2 !! uid
                         = Some (Some {[ "storeId" := VStr (storeId info);
                                         "role" := VStr "owner" ]})).
Proof.
  intros r. unfold r.
  destruct (get_all_stores (stores db)) as [idx|] eqn:Hidx.
  - rewrite (migrate_claims_eq db idx) by done. cbv zeta. cbn [fst snd accounts].
    destruct (for_each_user_accounts idx (users db) initial_state env w)
      as [Hdom Hacc].
    split; [done|]. intros uid.
    destruct (Hacc uid) as [?|(? & ? & info & ? & ?)]; [by left|].
    right. split; [done|]. split; [done|]. by exists idx, info.
  - rewrite migrate_claims_raises by done. split; [done|]. intros uid. by left.
Qed.

Lemma for_each_user_migrated_records idx l env w :
  let r := for_each_user idx l initial_state env w in
  ∀ o, o ∈ results r.1 → res_status o = "migrated" →
    ∃ info, idx !! res_userId o = Some info
            ∧ accounts r.2 !! res_userId o = Some (Some (new_claims_for info))
            ∧ res_storeId o = VStr (storeId info)
            ∧ res_role o = VStr "owner".
Proof.
  apply (for_each_user_rel
           (λ st w', ∀ o, o ∈ results st → res_status o = "migrated" →
              ∃ info, idx !! res_userId o = Some info
                      ∧ accounts w' !! res_userId o
                        = Some (Some (new_claims_for info))
                      ∧ res_storeId o = VStr (storeId info)
                      ∧ res_role o = VStr "owner")).
  2:{ intros o Ho. by apply elem_of_nil in Ho. }
  intros u st w' _ HP o.
  destruct (process_user_cases idx u st env w')
    as [(_ & ->)|[(_ & _ & ->)|[(info & _ & Hidx & _ & ->)|(info & _ & _ & ->)]]];
    cbn [fst snd accounts record_call results record_outcome counted];
    rewrite elem_of_app, list_elem_of_singleton;
    (intros [Ho| ->]; [|try (simpl; discriminate)]); try (by apply HP).
  - intros Hm. destruct (HP o Ho Hm) as (info' & Hidx' & Hacc & Hrec).
    exists info'. split; [done|]. split; [|done].
    destruct (decide (res_userId o = user_doc_id u)) as [Heq|Hne].
    + rewrite Heq in *. rewrite lookup_insert_eq. congruence.
    + by rewrite lookup_insert_ne.
  - intros _. exists info. simpl. split; [done|]. by rewrite lookup_insert_eq.
Qed.

(** X8.  The report of a run for which the index was built agrees
    with the Identity store: every user the report lists as [migrated] ends the run holding the claims the
    record shows, the id of the store the index files under that user
    and the role ['owner'], also when the user occurs again later in the
    stream. *)
Theorem X8_migrated_records_hold db idx env w :
  get_all_stores (stores db) = Returns idx →
  let r := migrate_claims db env w in
  ∃ report,
    log_files r.2 = log_files w ++ [report]
    ∧ ∀ o, o ∈ report_results report → res_status o = "migrated" →
        ∃ info, idx !! res_userId o = Some info
                ∧ accounts r.2 !! res_userId o
                  = Some (Some {[ "storeId" := res_storeId o;
                                  "role" := res_role o ]})
                ∧ res_storeId o = VStr (storeId info)
                ∧ res_role o = VStr "owner".
Proof.
  intros Hbuilt r. unfold r. rewrite (migrate_claims_eq db idx) by done. cbv zeta.
  cbn [fst snd accounts log_files].
  eexists. rewrite for_each_user_log_files. split; [done|].
  cbn [report_results]. intros o Ho Hm.
  destruct (for_each_user_migrated_records idx
              (users db) env w o Ho Hm) as (info & Hidx & Hacc & Hs & Hr).
  exists info. rewrite Hs, Hr. by repeat split.
Qed.

(** ** Store claims across a run *)

Lemma get_all_stores_nonempty_ids docs idx o info :
  Forall (λ d, store_doc_id d ≠ "") docs →
  get_all_stores docs = Returns idx →
  idx !! o = Some info →
  storeId info ≠ "".
Proof.
  intros Hdocs Hidx Hlook. apply get_all_stores_Returns in Hidx as [-> _].
  apply index_of_origin in Hlook as (_ & d & Hd & _ & ->).
  rewrite Forall_forall in Hdocs. by apply Hdocs.
Qed.

Lemma has_store_claim_lookup w w' uid :
  accounts w' !! uid = accounts w !! uid →
  has_store_claim w' uid = has_store_claim w uid.
Proof. unfold has_store_claim. by intros ->. Qed.

Lemma fetched_truthy_has_store_claim uid env w :
  truthy (py_get (fetched_claims uid env w) "storeId") = true →
  has_store_claim w uid = true.
Proof.
  intros H. destruct (has_store_claim w uid) eqn:Hc; [done|].
  apply (has_store_claim_false_fetched uid env) in Hc. congruence.
Qed.

(** X9.  A run never takes a store claim away when store documents have
    non-empty ids: an account that held a non-empty [storeId] claim
    before the run holds one after it, whatever calls failed. *)
Theorem X9_store_claims_persist db env w uid :
  Forall (λ d, store_doc_id d ≠ "") (stores db) →
  has_store_claim w uid = true →
  has_store_claim (migrate_claims db env w).2 uid = true.
Proof.
  intros Hdocs Hc.
  destruct (get_all_stores (stores db)) as [idx|] eqn:Hbuilt.
  2:{ by rewrite migrate_claims_raises. }
  rewrite (migrate_claims_eq db idx) by done. cbv zeta.
  destruct (for_each_user_accounts idx (users db) initial_state env w)
    as [_ Hacc].
  destruct (Hacc uid) as [Heq|(_ & _ & info & Hidx & Heq)].
  - rewrite <- Hc. by apply has_store_claim_lookup.
  - apply (has_store_claim_new_claims _ _ info); [|done].
    by apply (get_all_stores_nonempty_ids (stores db) idx uid).
Qed.

Lemma X9_store_claims_persist_witness :
  (Forall (λ d, store_doc_id d ≠ "") (stores Scenario.db)
   ∧ has_store_claim Scenario.world "u2" = true)
  ∧ has_store_claim
      (migrate_claims Scenario.db Scenario.write_outage Scenario.world).2 "u2"
    = true.
Proof.
  assert (Forall (λ d, store_doc_id d ≠ "") (stores Scenario.db)) as H1
    by (repeat constructor; discriminate).
  assert (has_store_claim Scenario.world "u2" = true) as H2
    by (vm_compute; reflexivity).
  split; [by split|].
  exact (X9_store_claims_persist Scenario.db Scenario.write_outage
           Scenario.world "u2" H1 H2).
Defined.

Lemma for_each_user_protects idx l st env w :
  fetches_succeed_from env (length (trace w)) →
  let r := for_each_user idx l st env w in
  ∀ uid, has_store_claim w uid = true →
         accounts r.2 !! uid = accounts w !! uid.
Proof.
  intros Henv.
  apply (for_each_user_rel
           (λ _ w', length (trace w) ≤ length (trace w')
                    ∧ ∀ uid, has_store_claim w uid = true →
                             accounts w' !! uid = accounts w !! uid)).
  2:{ split; [lia|done]. }
  intros u st' w' _ [Hlen HP].
  destruct (process_user_cases idx u st' env w')
    as [(_ & ->)|[(_ & _ & ->)|[(info & Hcc & _ & Hsome & ->)|(info & _ & _ & ->)]]];
    cbn [fst snd accounts trace record_call];
    (split; [rewrite length_app; lia|]); try done.
  intros uid Hc. destruct (decide (uid = user_doc_id u)) as [->|Hne].
  - exfalso.
    assert (has_store_claim w' (user_doc_id u) = true) as Hc'
      by (rewrite <- Hc; by apply has_store_claim_lookup, HP).
    assert (fetch_raises (user_doc_id u) env w' = false) as Hr
      by (apply fetch_raises_false; [done|by apply Henv]).
    pose proof (has_store_claim_true_fetched _ env w' Hc' Hr). congruence.
  - rewrite lookup_insert_ne by done. by apply HP.
Qed.

(** X10.  When no fetch raises during a run, every account that held a
    non-empty [storeId] claim before the run is left exactly as it was:
    the script only ever overwrites such claims after a failed fetch. *)
Theorem X10_claimed_accounts_protected db env w uid :
  fetches_succeed_from env (length (trace w)) →
  has_store_claim w uid = true →
  accounts (migrate_claims db env w).2 !! uid = accounts w !! uid.
Proof.
  intros Henv Hc.
  destruct (get_all_stores (stores db)) as [idx|] eqn:Hbuilt.
  2:{ by rewrite migrate_claims_raises. }
  rewrite (migrate_claims_eq db idx) by done. cbv zeta. cbn [snd accounts].
  by apply for_each_user_protects.
Qed.

Lemma X10_claimed_accounts_protected_witness :
  (fetches_succeed_from Scenario.revoke_outage (length (trace Scenario.world))
   ∧ has_store_claim Scenario.world "u2" = true)
  ∧ accounts (migrate_claims Scenario.db Scenario.revoke_outage Scenario.world).2
      !! "u2"
    = Some (Some Scenario.s9_claims).
Proof.
  assert (fetches_succeed_from Scenario.revoke_outage
            (length (trace Scenario.world))) as H1 by (intros n _; reflexivity).
  assert (has_store_claim Scenario.world "u2" = true) as H2
    by (vm_compute; reflexivity).
  split; [by split|].
  exact (X10_claimed_accounts_protected Scenario.db Scenario.revoke_outage
           Scenario.world "u2" H1 H2).
Defined.

(** ** Running the whole job twice *)

Lemma process_user_keeps_store_claim idx u st env w uid :
  (∀ o info, idx !! o = Some info → storeId info ≠ "") →
  has_store_claim w uid = true →
  has_store_claim (process_user idx u st env w).2 uid = true.
Proof.
  intros Hidx Hc.
  destruct (for_each_user_accounts idx [u] st env w) as [_ Hacc].
  rewrite for_each_user_cons in Hacc. simpl in Hacc.
  destruct (Hacc uid) as [Heq|(_ & _ & info & Hi & Heq)].
  - rewrite <- Hc. by apply has_store_claim_lookup.
  - apply (has_store_claim_new_claims _ _ info); [|done]. by apply (Hidx uid).
Qed.

(** After the loop every record is an [error], or its user holds a
    store claim, or its user owns no store. *)
Lemma for_each_user_settles idx l env w :
  (∀ o info, idx !! o = Some info → storeId info ≠ "") →
  let r := for_each_user idx l initial_state env w in
  Forall (λ o, res_status o = "error"
               ∨ (res_status o ≠ "no_store"
                  ∧ has_store_claim r.2 (res_userId o) = true)
               ∨ (res_status o = "no_store" ∧ idx !! res_userId o = None))
         (results r.1).
Proof.
  intros Hidx.
  apply (for_each_user_rel
           (λ st w', Forall (λ o, res_status o = "error"
                                  ∨ (res_status o ≠ "no_store"
                                     ∧ has_store_claim w' (res_userId o) = true)
                                  ∨ (res_status o = "no_store"
                                     ∧ idx !! res_userId o = None))
                            (results st))).
  2:{ constructor. }
  intros u st w' _ HP.
  assert (Forall (λ o, res_status o = "error"
                       ∨ (res_status o ≠ "no_store"
                          ∧ has_store_claim (process_user idx u st env w').2
                              (res_userId o) = true)
                       ∨ (res_status o = "no_store" ∧ idx !! res_userId o = None))
                 (results st)) as Hold.
  { eapply Forall_impl; [exact HP|]. intros o [?|[[? ?]|?]]; auto.
    right; left. split; [done|]. by apply process_user_keeps_store_claim. }
  revert Hold.
  destruct (process_user_cases idx u st env w')
    as [(Hcc & ->)|[(_ & Hnone & ->)|[(info & _ & Hi & _ & ->)|(info & _ & _ & ->)]]];
    cbn [fst snd results record_outcome counted]; intros Hold;
    apply Forall_app; (split; [done|]); apply Forall_singleton.
  - right; left. split; [done|]. simpl.
    rewrite <- (fetched_truthy_has_store_claim _ env w' Hcc).
    by apply has_store_claim_lookup.
  - right; right. by split.
  - right; left. split; [done|]. simpl.
    apply (has_store_claim_new_claims _ _ info); [by apply (Hidx (user_doc_id u))|].
    apply lookup_insert_eq.
  - by left.
Qed.

Lemma count_status_zero s l :
  count_status s l = 0 → Forall (λ o, res_status o ≠ s) l.
Proof.
  unfold count_status. intros H. apply Forall_forall. intros o Ho Hs.
  assert (o ∈ filter (λ o, res_status o = s) l) as Hin
    by (apply list_elem_of_filter; by split).
  destruct (filter _ l); [by apply elem_of_nil in Hin|discriminate H].
Qed.

Lemma length_filter_fmap {A B} (f : A → B) (p : B → bool) (l : list A) :
  length (filter (λ b, p b = true) (f <$> l))
  = length (filter (λ a, p (f a) = true) l).
Proof.
  induction l as [|a l IH]; [done|].
  rewrite fmap_cons, !filter_cons.
  destruct (decide (p (f a) = true)); simpl; by rewrite IH.
Qed.

Lemma count_two_statuses_le (Q : Outcome → Prop) `{∀ o, Decision (Q o)} l :
  Forall (λ o, res_status o = "migrated" ∨ res_status o = "already_has_claims"
               → Q o) l →
  count_status "migrated" l + count_status "already_has_claims" l
  ≤ length (filter Q l).
Proof.
  unfold count_status. induction 1 as [|o l Ho _ IH]; [done|].
  rewrite !filter_cons.
  destruct (decide (res_status o = "migrated")) as [Hm|Hm];
    destruct (decide (res_status o = "already_has_claims")) as [Ha|Ha];
    try congruence;
    destruct (decide (Q o)) as [HQ|HQ]; simpl; try lia;
    exfalso; apply HQ, Ho; auto.
Qed.

(** Over users who each hold a store claim or own no store, with no
    fetch raising, the loop only fetches. *)
Lemma for_each_user_settled idx l st env w :
  Forall (λ u, has_store_claim w (user_doc_id u) = true
               ∨ idx !! user_doc_id u = None) l →
  fetches_succeed_from env (length (trace w)) →
  let r := for_each_user idx l st env w in
  accounts r.2 = accounts w
  ∧ trace r.2 = trace w ++ (GetUser <$> (user_doc_id <$> l))
  ∧ migrated (stats r.1) = migrated (stats st)
  ∧ errors (stats r.1) = errors (stats st)
  ∧ already_has_claims (stats r.1)
    = already_has_claims (stats st)
      + length (filter (λ u, has_store_claim w (user_doc_id u) = true) l).
Proof.
  intros Hl. revert st w Hl. induction l as [|u l IH]; intros st w Hl Henv.
  - simpl. rewrite app_nil_r. repeat split. lia.
  - cbv zeta. rewrite for_each_user_cons.
    apply Forall_cons in Hl as [Hu Hl].
    set (w1 := record_call (GetUser (user_doc_id u)) w).
    assert (Forall (λ u', has_store_claim w1 (user_doc_id u') = true
                          ∨ idx !! user_doc_id u' = None) l) as Hl1
      by (eapply Forall_impl; [exact Hl|]; by intros u' [?|?]; [left|right]).
    assert (fetches_succeed_from env (length (trace w1))) as Henv1.
    { intros n Hn. apply Henv. unfold w1 in Hn. simpl in Hn.
      rewrite length_app in Hn. simpl in Hn. lia. }
    assert (length (filter (λ u', has_store_claim w1 (user_doc_id u') = true) l)
            = length (filter (λ u', has_store_claim w (user_doc_id u') = true) l))
      as Hsame by done.
    rewrite filter_cons.
    destruct (has_store_claim w (user_doc_id u)) eqn:Hc.
    + assert (fetch_raises (user_doc_id u) env w = false) as Hr.
      { apply fetch_raises_false; [by apply has_store_claim_is_Some|].
        by apply Henv. }
      rewrite (process_user_already idx u st env w)
        by by apply has_store_claim_true_fetched.
      cbn [fst snd]. fold w1.
      destruct (IH (record_outcome incr_already_has_claims
                      (outcome_already u (fetched_claims (user_doc_id u) env w))
                      (counted st)) w1 Hl1 Henv1) as (Ha & Ht & Hm & He & Hc').
      rewrite Ha, Ht, Hm, He, Hc', Hsame. simpl. rewrite <- app_assoc.
      destruct (decide (true = true)); [|done]. simpl. repeat split. lia.
    + destruct Hu as [Hu|Hu]; [discriminate Hu|].
      rewrite (process_user_no_store idx u st env w)
        by (by try apply has_store_claim_false_fetched).
      cbn [fst snd]. fold w1.
      destruct (IH (record_outcome incr_no_store (outcome_no_store u) (counted st))
                  w1 Hl1 Henv1) as (Ha & Ht & Hm & He & Hc').
      rewrite Ha, Ht, Hm, He, Hc', Hsame. simpl. rewrite <- app_assoc.
      destruct (decide (false = true)); [done|]. by repeat split.
Qed.

(** X11.  The job is safe to run again.  Let store documents have
    non-empty ids and let a first run, under any outages, return with no
    [error].  Then a second run of the same job during which no fetch
    raises migrates nobody and fails for nobody: it only fetches, once
    per user, leaves every account as the first run left it, and reports
    [already_has_claims] at least for every record the first run
    reported as [migrated] or [already_has_claims]. *)
Theorem X11_rerun_changes_nothing db env1 env2 w s1 :
  Forall (λ d, store_doc_id d ≠ "") (stores db) →
  let r1 := migrate_claims db env1 w in
  r1.1 = Returns s1 →
  errors s1 = 0 →
  fetches_succeed_from env2 (length (trace r1.2)) →
  let r2 := migrate_claims db env2 r1.2 in
  ∃ s2, r2.1 = Returns s2
    ∧ migrated s2 = 0
    ∧ errors s2 = 0
    ∧ migrated s1 + already_has_claims s1 ≤ already_has_claims s2
    ∧ accounts r2.2 = accounts r1.2
    ∧ trace r2.2 = trace r1.2 ++ (GetUser <$> (user_doc_id <$> users db)).
Proof.
  intros Hdocs r1 Hret Herr Henv r2. unfold r2. clear r2.
  revert Hret Herr Henv. unfold r1. clear r1.
  destruct (get_all_stores (stores db)) as [idx|] eqn:Hbuilt.
  2:{ rewrite migrate_claims_raises by done. discriminate. }
  rewrite (migrate_claims_eq db idx env1 w) by done. cbv zeta. cbn [fst snd trace].
  set (l1 := for_each_user idx (users db) initial_state env1 w).
  set (w1 := {| accounts := accounts l1.2 |}).
  intros [= <-] Herr Henv.
  assert (∀ o info, idx !! o = Some info → storeId info ≠ "") as Hidx
    by (intros o info; by apply (get_all_stores_nonempty_ids (stores db))).
  pose proof (for_each_user_settles idx (users db) env1 w Hidx) as Hset.
  pose proof (for_each_user_tallied idx (users db) initial_state env1 w
                initial_state_tallied) as (_ & Hm & Ha & _ & He).
  pose proof (for_each_user_ids idx (users db) initial_state env1 w) as Hids.
  cbv zeta in Hset. fold l1 in Hset, Hm, Ha, He, Hids. simpl in Hids.
  rewrite Herr in He. symmetry in He. apply count_status_zero in He.
  assert (Forall (λ o, res_status o = "migrated" ∨ res_status o = "already_has_claims"
                       → has_store_claim w1 (res_userId o) = true)
                 (results l1.1)) as Hclaimed.
  { eapply Forall_impl; [exact Hset|]. intros o [Ho|[[_ Ho]|[Ho _]]] Hs.
    - destruct Hs as [Hs|Hs]; rewrite Hs in Ho; discriminate Ho.
    - exact Ho.
    - destruct Hs as [Hs|Hs]; rewrite Hs in Ho; discriminate Ho. }
  assert (Forall (λ u, has_store_claim w1 (user_doc_id u) = true
                       ∨ idx !! user_doc_id u = None) (users db)) as Husers.
  { apply (Forall_fmap user_doc_id
             (λ uid, has_store_claim w1 uid = true ∨ idx !! uid = None)).
    rewrite <- Hids. apply Forall_fmap.
    rewrite Forall_forall in Hset, He. apply Forall_forall. intros o Ho.
    destruct (Hset o Ho) as [Hs|[[_ Hs]|[_ Hs]]]; simpl; auto.
    by destruct (He o Ho). }
  rewrite (migrate_claims_eq db idx env2 w1) by done.
  cbv zeta. cbn [fst snd accounts trace].
  destruct (for_each_user_settled idx (users db) initial_state env2 w1 Husers Henv)
    as (Hacc & Htr & Hmig & Herr2 & Halr).
  eexists. split; [reflexivity|].
  split; [done|]. split; [done|]. split; [|by split].
  rewrite Halr, Hm, Ha.
  cbn [already_has_claims stats initial_state initial_stats Nat.add].
  etrans; [apply (count_two_statuses_le
                    (λ o, has_store_claim w1 (res_userId o) = true)), Hclaimed|].
  apply Nat.eq_le_incl.
  etrans; [symmetry; apply (length_filter_fmap res_userId (has_store_claim w1))|].
  rewrite Hids.
  apply (length_filter_fmap user_doc_id (has_store_claim w1)).
Qed.

Lemma X11_rerun_changes_nothing_witness :
  (Forall (λ d, store_doc_id d ≠ "") (stores Scenario.db)
   ∧ (migrate_claims Scenario.db Scenario.revoke_outage Scenario.world).1
     = Returns {| total := 3; migrated := 1; already_has_claims := 1;
                  no_store := 1; errors := 0 |}
   ∧ fetches_succeed_from Scenario.no_faults
       (length (trace (migrate_claims Scenario.db Scenario.revoke_outage
                         Scenario.world).2)))
  ∧ ∃ s2, (migrate_claims Scenario.db Scenario.no_faults
             (migrate_claims Scenario.db Scenario.revoke_outage
                Scenario.world).2).1 = Returns s2
          ∧ migrated s2 = 0.
Proof.
  assert (Forall (λ d, store_doc_id d ≠ "") (stores Scenario.db)) as H1
    by (repeat constructor; discriminate).
  assert ((migrate_claims Scenario.db Scenario.revoke_outage Scenario.world).1
          = Returns {| total := 3; migrated := 1; already_has_claims := 1;
                       no_store := 1; errors := 0 |}) as H2
    by (vm_compute; reflexivity).
  assert (fetches_succeed_from Scenario.no_faults
            (length (trace (migrate_claims Scenario.db Scenario.revoke_outage
                              Scenario.world).2))) as H3
    by (intros n _; reflexivity).
  split; [by repeat split|].
  destruct (X11_rerun_changes_nothing Scenario.db Scenario.revoke_outage
              Scenario.no_faults Scenario.world _ H1 H2 eq_refl H3)
    as (s2 & Hs2 & Hm & _).
  exists s2. by split.
Defined.

(** ** Users do not influence one another *)

Lemma process_user_other_account idx u st env w uid :
  uid ≠ user_doc_id u →
  accounts (process_user idx u st env w).2 !! uid = accounts w !! uid.
Proof.
  intros Hne.
  destruct (process_user_cases idx u st env w)
    as [(_ & ->)|[(_ & _ & ->)|[(info & _ & _ & _ & ->)|(info & _ & _ & ->)]]];
    cbn [snd accounts record_call]; try done.
  by rewrite lookup_insert_ne.
Qed.

Lemma fetched_claims_local uid env w w0 :
  steady env →
  accounts w !! uid = accounts w0 !! uid →
  fetched_claims uid env w = fetched_claims uid env w0.
Proof.
  intros Hst Hacc. unfold fetched_claims, get_user_current_claims.
  rewrite !run_bind. unfold auth_get_user.
  rewrite (proj1 (Hst (length (trace w)) (length (trace w0)))), Hacc.
  destruct (get_user_raises env _); [done|]. by destruct (accounts w0 !! uid).
Qed.

Lemma set_user_claims_local uid claims env w w0 :
  steady env →
  accounts w !! uid = accounts w0 !! uid →
  (set_user_claims uid claims env w).1 = (set_user_claims uid claims env w0).1.
Proof.
  intros Hst Hacc. unfold set_user_claims.
  rewrite !run_bind. unfold auth_set_custom_user_claims.
  rewrite (proj2 (Hst (length (trace w)) (length (trace w0)))), Hacc.
  destruct (set_claims_raises env _); [done|]. by destruct (accounts w0 !! uid).
Qed.

Lemma process_user_local idx u st env w w0 :
  steady env →
  accounts w !! user_doc_id u = accounts w0 !! user_doc_id u →
  results (process_user idx u st env w).1 = results st ++ record_alone idx env w0 u.
Proof.
  intros Hst Hacc. unfold record_alone. rewrite !process_user_eq. cbv zeta.
  rewrite (fetched_claims_local _ env w w0) by done.
  destruct (truthy _); [done|].
  destruct (idx !! user_doc_id u) as [info|]; [|done].
  rewrite (set_user_claims_local _ _ env
             (record_call (GetUser (user_doc_id u)) w)
             (record_call (GetUser (user_doc_id u)) w0)) by done.
  by destruct (set_user_claims _ _ env
                 (record_call (GetUser (user_doc_id u)) w0)).1.
Qed.

Lemma for_each_user_local idx l st env w w0 :
  steady env →
  NoDup (user_doc_id <$> l) →
  (∀ u, u ∈ l → accounts w !! user_doc_id u = accounts w0 !! user_doc_id u) →
  results (for_each_user idx l st env w).1
  = results st ++ (l ≫= record_alone idx env w0).
Proof.
  intros Hst. revert st w. induction l as [|u l IH]; intros st w Hnd Hacc.
  - simpl. by rewrite app_nil_r.
  - rewrite for_each_user_cons. rewrite fmap_cons in Hnd.
    apply NoDup_cons in Hnd as [Hu Hnd].
    rewrite IH; [|done|].
    + rewrite (process_user_local idx u st env w w0) by (auto using list_elem_of_here).
      by rewrite <- app_assoc.
    + intros u' Hu'. rewrite process_user_other_account.
      * apply Hacc. by right.
      * intros Heq. apply Hu. rewrite <- Heq. by apply list_elem_of_fmap_2.
Qed.

(** X12.  Users do not influence one another.  When the index is
    built, the outages do not depend on the position of a call and the
    user ids of the stream are distinct, the report lists for each user, in stream order, the very
    record the loop body gives for that user alone on the world as it
    was before the run.  So reordering the stream only reorders the
    report. *)
Theorem X12_users_independent db db' idx env w :
  get_all_stores (stores db) = Returns idx →
  steady env →
  NoDup (user_doc_id <$> users db) →
  stores db' = stores db →
  users db ≡ₚ users db' →
  ∃ report report',
    log_files (migrate_claims db env w).2 = log_files w ++ [report]
    ∧ log_files (migrate_claims db' env w).2 = log_files w ++ [report']
    ∧ report_results report = users db ≫= record_alone idx env w
    ∧ report_results report' = users db' ≫= record_alone idx env w
    ∧ report_results report ≡ₚ report_results report'.
Proof.
  intros Hidx Hst Hnd Hstores Hperm.
  assert (NoDup (user_doc_id <$> users db')) as Hnd' by by rewrite <- Hperm.
  rewrite (migrate_claims_eq db idx), (migrate_claims_eq db' idx)
    by (by rewrite ?Hstores).
  cbv zeta. cbn [snd log_files].
  rewrite !for_each_user_log_files.
  do 2 eexists. split; [done|]. split; [done|]. cbn [report_results fst].
  rewrite !(for_each_user_local idx _ initial_state env w w) by done.
  simpl. split; [done|]. split; [done|]. by rewrite Hperm.
Qed.

Lemma X12_users_independent_witness :
  (get_all_stores (stores Scenario.db) = Returns Scenario.idx
   ∧ steady Scenario.write_outage
   ∧ NoDup (user_doc_id <$> users Scenario.db)
   ∧ users Scenario.db
     ≡ₚ [Scenario.u2; Scenario.u1; Scenario.u3])
  ∧ ∃ report report',
      log_files (migrate_claims Scenario.db Scenario.write_outage Scenario.world).2
      = log_files Scenario.world ++ [report]
      ∧ log_files (migrate_claims
                     {| stores := stores Scenario.db;
                        users := [Scenario.u2; Scenario.u1; Scenario.u3] |}
                     Scenario.write_outage Scenario.world).2
        = log_files Scenario.world ++ [report']
      ∧ report_results report ≡ₚ report_results report'.
Proof.
  assert (steady Scenario.write_outage) as H1 by (intros n m; by split).
  assert (NoDup (user_doc_id <$> users Scenario.db)) as H2.
  { simpl.
    repeat (apply NoDup_cons;
            split; [rewrite ?elem_of_cons, elem_of_nil;
                    intros Hin; decompose [or] Hin;
                    try discriminate; contradiction|]).
    apply NoDup_nil_2. }
  assert (users Scenario.db ≡ₚ [Scenario.u2; Scenario.u1; Scenario.u3]) as H3
    by apply perm_swap.
  split; [by repeat split|].
  destruct (X12_users_independent Scenario.db
              {| stores := stores Scenario.db;
                 users := [Scenario.u2; Scenario.u1; Scenario.u3] |}
              Scenario.idx
              Scenario.write_outage Scenario.world eq_refl H1 H2 eq_refl H3)
    as (report & report' & Ha & Hb & _ & _ & Hp).
  exists report, report'. by repeat split.
Defined.

(** ** The prompt *)

Example strip_and_lower_accept :
  py_lower (py_strip (String (Ascii.ascii_of_nat 9) " S  ")) = "s".
Proof. reflexivity. Qed.

Example strip_keeps_inner_space : py_strip "  s i " = "s i".
Proof. reflexivity. Qed.

Lemma py_lower_is_s s : py_lower s = "s" ↔ s = "s" ∨ s = "S".
Proof.
  destruct s as [|c [|c' s']].
  - simpl. split; [discriminate|]. intros [?|?]; discriminate.
  - destruct c as [[] [] [] [] [] [] [] []]; vm_compute;
      (split; [intros H; first [discriminate H | by left | by right]
              |intros [H|H]; first [discriminate H | reflexivity]]).
  - simpl. split; [discriminate|]. intros [?|?]; discriminate.
Qed.

(** X13.  The prompt gates every effect.  The job runs, exactly as
    [migrate_claims] does, when the line typed is [s] or [S] up to
    surrounding white space; on any other line, on an interrupt and on a
    closed input nothing is called, written or logged. *)
Theorem X13_prompt_gates_the_run db env w :
  (∀ line,
     py_strip line = "s" ∨ py_strip line = "S" →
     (main db (ReadLine line) env w).2 = (migrate_claims db env w).2)
  ∧ (∀ line,
       py_strip line ≠ "s" → py_strip line ≠ "S" →
       main db (ReadLine line) env w = ((), w))
  ∧ main db Interrupt env w = ((), w)
  ∧ main db EndOfFile env w = ((), w).
Proof.
  split; [|split; [|done]].
  - intros line Hs. apply py_lower_is_s in Hs. unfold main. cbv zeta.
    destruct (decide (py_lower (py_strip line) = "s")); [|done].
    rewrite run_bind. by destruct (migrate_claims db env w).
  - intros line H1 H2. unfold main. cbv zeta.
    destruct (decide (py_lower (py_strip line) = "s")) as [Hs|]; [|done].
    apply py_lower_is_s in Hs as [?|?]; done.
Qed.

Lemma X13_prompt_gates_the_run_witness :
  ((py_strip " S " = "s" ∨ py_strip " S " = "S")
   ∧ py_strip "si" ≠ "s" ∧ py_strip "si" ≠ "S")
  ∧ (main Scenario.db (ReadLine " S ") Scenario.no_faults Scenario.world).2
    = (migrate_claims Scenario.db Scenario.no_faults Scenario.world).2
  ∧ main Scenario.db (ReadLine "si") Scenario.no_faults Scenario.world
    = ((), Scenario.world).
Proof.
  assert (py_strip " S " = "s" ∨ py_strip " S " = "S") as H1 by (by right).
  assert (py_strip "si" ≠ "s") as H2 by discriminate.
  assert (py_strip "si" ≠ "S") as H3 by discriminate.
  split; [by repeat split|]. split.
  - exact (proj1 (X13_prompt_gates_the_run Scenario.db Scenario.no_faults
                    Scenario.world) " S " H1).
  - exact (proj1 (proj2 (X13_prompt_gates_the_run Scenario.db Scenario.no_faults
                           Scenario.world)) "si" H2 H3).
Defined.

(** ** The rows of the report *)

Lemma process_user_row idx u st env w :
  ∃ o, results (process_user idx u st env w).1 = results st ++ [o]
       ∧ res_userId o = user_doc_id u
       ∧ res_email o = default (VStr "N/A") (email_field u)
       ∧ (res_storeId o = VNone
          ↔ res_status o = "no_store" ∨ res_status o = "error")
       ∧ (res_status o = "no_store" ∨ res_status o = "error" → res_role o = VNone).
Proof.
  destruct (process_user_cases idx u st env w)
    as [(Hcc & ->)|[(_ & _ & ->)|[(info & _ & _ & _ & ->)|(info & _ & _ & ->)]]];
    eexists; (split; [reflexivity|]); simpl;
    (split; [done|]); (split; [done|]).
  - split; [|intros [?|?]; discriminate].
    split; [|intros [?|?]; discriminate].
    intros Hnone. rewrite Hnone in Hcc. discriminate Hcc.
  - split; [|done]. split; [by left|done].
  - split; [|intros [?|?]; discriminate].
    split; [discriminate|intros [?|?]; discriminate].
  - split; [|done]. split; [by right|done].
Qed.

Lemma for_each_user_rows idx l st env w :
  ∃ os, results (for_each_user idx l st env w).1 = results st ++ os
        ∧ Forall2 (λ u o,
             res_userId o = user_doc_id u
             ∧ res_email o = default (VStr "N/A") (email_field u)
             ∧ (res_storeId o = VNone
                ↔ res_status o = "no_store" ∨ res_status o = "error")
             ∧ (res_status o = "no_store" ∨ res_status o = "error"
                → res_role o = VNone)) l os.
Proof.
  revert st w. induction l as [|u l IH]; intros st w.
  - exists []. simpl. rewrite app_nil_r. split; [done|constructor].
  - rewrite for_each_user_cons.
    destruct (process_user_row idx u st env w) as (o & Hr & Ho).
    destruct (IH (process_user idx u st env w).1 (process_user idx u st env w).2)
      as (os & Hrs & Hos).
    exists (o :: os). rewrite Hrs, Hr, <- app_assoc. split; [done|].
    by constructor.
Qed.

(** X4.  The rows of the report of a run for which the index was
    built, against the stream of users: row [i]
    carries the id of user [i] and that user's [email] field, ['N/A']
    when the document has none; its [storeId] is null exactly when the
    status is [no_store] or [error], and then [role] is null too. *)
Theorem X4_report_rows db idx env w :
  get_all_stores (stores db) = Returns idx →
  ∃ report,
    log_files (migrate_claims db env w).2 = log_files w ++ [report]
    ∧ Forall2 (λ u o,
         res_userId o = user_doc_id u
         ∧ res_email o = default (VStr "N/A") (email_field u)
         ∧ (res_storeId o = VNone
            ↔ res_status o = "no_store" ∨ res_status o = "error")
         ∧ (res_status o = "no_store" ∨ res_status o = "error"
            → res_role o = VNone))
        (users db) (report_results report).
Proof.
  intros Hidx. rewrite (migrate_claims_eq db idx) by done.
  cbv zeta. cbn [snd log_files].
  eexists. rewrite for_each_user_log_files. split; [done|].
  cbn [report_results].
  destruct (for_each_user_rows idx (users db) initial_state env w)
    as (os & -> & Hos).
  exact Hos.
Qed.

Lemma X4_report_rows_witness :
  get_all_stores (stores Scenario.db) = Returns Scenario.idx
  ∧ ∃ report,
      log_files (migrate_claims Scenario.db Scenario.write_outage Scenario.world).2
      = log_files Scenario.world ++ [report]
      ∧ length (report_results report) = length (users Scenario.db).
Proof.
  assert (get_all_stores (stores Scenario.db) = Returns Scenario.idx) as H
    by reflexivity.
  split; [exact H|].
  destruct (X4_report_rows Scenario.db Scenario.idx Scenario.write_outage
              Scenario.world H) as (report & Hlog & Hrows).
  exists report. split; [exact Hlog|].
  symmetry. exact (Forall2_length _ _ _ Hrows).
Defined.

Lemma X5_call_count_witness :
  get_all_stores (stores Scenario.db) = Returns Scenario.idx
  ∧ length (trace (migrate_claims Scenario.db Scenario.write_outage
                     Scenario.world).2)
    ≤ length (trace Scenario.world) + 3 * length (users Scenario.db).
Proof.
  assert (get_all_stores (stores Scenario.db) = Returns Scenario.idx) as H
    by reflexivity.
  split; [exact H|].
  destruct (X5_call_count Scenario.db Scenario.idx Scenario.write_outage
              Scenario.world H) as (s & _ & _ & _ & Hle).
  exact Hle.
Defined.

Lemma X6_calls_follow_report_witness :
  get_all_stores (stores Scenario.db) = Returns Scenario.idx
  ∧ ∃ report,
      log_files (migrate_claims Scenario.db Scenario.write_outage Scenario.world).2
      = log_files Scenario.world ++ [report]
      ∧ trace (migrate_claims Scenario.db Scenario.write_outage Scenario.world).2
        = trace Scenario.world
          ++ concat (calls_for Scenario.idx <$> report_results report).
Proof.
  assert (get_all_stores (stores Scenario.db) = Returns Scenario.idx) as H
    by reflexivity.
  split; [exact H|].
  exact (X6_calls_follow_report Scenario.db Scenario.idx Scenario.write_outage
           Scenario.world H).
Defined.

Lemma X8_migrated_records_hold_witness :
  get_all_stores (stores Scenario.db) = Returns Scenario.idx
  ∧ accounts (migrate_claims Scenario.db Scenario.revoke_outage Scenario.world).2
      !! "u1"
    = Some (Some {[ "storeId" := VStr "S1"; "role" := VStr "owner" ]}).
Proof.
  assert (get_all_stores (stores Scenario.db) = Returns Scenario.idx) as H
    by reflexivity.
  split; [exact H|].
  destruct (X8_migrated_records_hold Scenario.db Scenario.idx
              Scenario.revoke_outage Scenario.world H)
    as (report & Hlog & Hrows).
  vm_compute in Hlog. injection Hlog as <-.
  destruct (Hrows (outcome_migrated Scenario.u1 Scenario.s1_info))
    as (info & _ & Hacc & _).
  - by left.
  - reflexivity.
  - exact Hacc.
Defined.
